(** * WhatsApp Web simulator: webhook ingestion and conversation aggregation

    A shallow embedding of the backend of the repository:

    - [models/Message.js]: the Mongoose schema of the one persisted entity;
    - [processWebhooks.js]: the webhook processor ([saveMessage],
      [updateMessageStatus], [extractWebhookData], [processMessages],
      [processStatusUpdates], [createMessageFromWebhook],
      [getContactInfoFromWebhook], [processWebhookFile]);
    - [controllers/messageController.js]: the query and command API
      ([getConversations], [buildConversationSummary], [getMessages],
      [sendMessage], [validateMessageInput], [getContactName],
      [createOutgoingMessage], [getHealth]).

    Conventions of the embedding.

    - A JavaScript string is a [string]: a sequence of code units below 256.
      A property that may be absent ([undefined]) has type [option string].
    - A JavaScript number that the backend computes is an integer or [NaN]
      ([jsnum]), and [-0] is identified with [0].  The embedding computes
      on exact integers; the source computes on doubles, which agree with
      them as long as no operand or result exceeds 2^53 in magnitude.
      Beyond that the source rounds (and overflows to [Infinity]) and the
      embedding does not follow: it still tells a number from [NaN], and a
      statement about the value of a number is made under
      [exact_in_double].
    - The collection [processed_messages] is the list of its documents in
      insertion order.  The wall clock and [Math.random] are oracles carried
      by the [World]; every reading consumes one value.
    - [async]/[await] is sequential composition in the state monad [M]; the
      store itself never fails (the [catch] branches that only guard against
      a lost connection are not modelled). *)

From Stdlib Require Import Bool Arith ZArith List Ascii String Lia.
From Stdlib Require Import Permutation Sorted DecimalString.
Import ListNotations.
Open Scope string_scope.

(** ** JavaScript values *)

Module Js.

(** Result of [parseInt] and of the arithmetic on it: [NaN], or a number
    given by an exact integer (the value of the source's double when it
    does not exceed 2^53 in magnitude). *)
Inductive jsnum : Type :=
| NaN : jsnum
| Num : Z -> jsnum.

(** [a * b] on numbers; [NaN] is absorbing.  The product is the exact
    one: it is the source's when it does not exceed 2^53 in magnitude. *)
Definition mul (a b : jsnum) : jsnum :=
  match a, b with
  | Num x, Num y => Num (x * y)
  | _, _ => NaN
  end.

(** ToBoolean on a value that is a string or [undefined]. *)
Definition truthy (v : option string) : bool :=
  match v with
  | Some s => negb (s =? "")
  | None => false
  end.

(** [a || b] on such values. *)
Definition or (a b : option string) : option string :=
  if truthy a then a else b.

(** [a || 'literal']: the right operand is a string, so is the result. *)
Definition or_default (a : option string) (d : string) : string :=
  match a with
  | Some s => if s =? "" then d else s
  | None => d
  end.

(** [a === b] on values that are strings or [undefined]. *)
Definition strict_eq (a b : option string) : bool :=
  match a, b with
  | Some x, Some y => x =? y
  | None, None => true
  | _, _ => false
  end.

(** WhiteSpace and LineTerminator code units below 256:
    TAB, LF, VT, FF, CR, SP and NBSP. *)
Definition is_space (c : ascii) : bool :=
  let n := nat_of_ascii c in
  (((9 <=? n) && (n <=? 13)) || (n =? 32) || (n =? 160))%nat.

Fixpoint trimStart (s : string) : string :=
  match s with
  | String c r => if is_space c then trimStart r else s
  | EmptyString => EmptyString
  end.

(** The string without its trailing white space. *)
Fixpoint trimEnd (s : string) : string :=
  match s with
  | String c r =>
      match trimEnd r with
      | EmptyString => if is_space c then EmptyString else String c EmptyString
      | r' => String c r'
      end
  | EmptyString => EmptyString
  end.

(** [String.prototype.trim]. *)
Definition trim (s : string) : string := trimEnd (trimStart s).

(** Value of a digit in radix 10 or 16. *)
Definition digit (radix : Z) (c : ascii) : option Z :=
  let n := Z.of_nat (nat_of_ascii c) in
  let v :=
    (if (48 <=? n) && (n <=? 57) then Some (n - 48)
     else if (97 <=? n) && (n <=? 102) then Some (n - 87)
     else if (65 <=? n) && (n <=? 70) then Some (n - 55)
     else None)%Z in
  match v with
  | Some d => if (d <? radix)%Z then Some d else None
  | None => None
  end.

(** Reads the longest prefix of digits; [acc] is [None] until one digit
    has been read. *)
Fixpoint digits (radix : Z) (acc : option Z) (s : string) : option Z :=
  match s with
  | String c r =>
      match digit radix c with
      | Some d =>
          digits radix
            (Some (match acc with Some a => a * radix + d | None => d end)%Z) r
      | None => acc
      end
  | EmptyString => acc
  end.

(** [parseInt(s)] with no radix argument: leading white space, a sign, a
    [0x]/[0X] prefix selecting radix 16, then the longest run of digits.
    The result is the exact value of the digits: it is the source's when
    it does not exceed 2^53 in magnitude, and the two agree on which
    strings give [NaN]. *)
Definition parseInt_string (s : string) : jsnum :=
  let s1 := trimStart s in
  let '(sign, s2) :=
    match s1 with
    | String "-" r => ((-1)%Z, r)
    | String "+" r => (1%Z, r)
    | _ => (1%Z, s1)
    end in
  let '(radix, s3) :=
    match s2 with
    | String "0" (String "x" r) => (16%Z, r)
    | String "0" (String "X" r) => (16%Z, r)
    | _ => (10%Z, s2)
    end in
  match digits radix None s3 with
  | Some v => Num (sign * v)
  | None => NaN
  end.

(** [parseInt(v)]: [undefined] is first converted to the string
    ["undefined"], which has no digit. *)
Definition parseInt (v : option string) : jsnum :=
  match v with
  | Some s => parseInt_string s
  | None => NaN
  end.

(** String concatenation with a number: its decimal representation. *)
Definition toString (z : Z) : string := NilZero.string_of_int (Z.to_int z).

End Js.

(** ** The Message model ([models/Message.js]) and the world around it *)

(** A stored document of the collection: the paths of [messageSchema]
    after casting and defaults, and the two audit paths that the option
    [timestamps: true] adds. *)
Record Doc : Type := mkDoc {
  messageId : string;
  wa_id : string;
  text : string;
  messageType : string;
  fromNumber : string;
  toNumber : string;
  contactName : string;
  timestamp : Z;
  isOutgoing : bool;
  status : string;
  createdAt : Z;
  updatedAt : Z
}.

(** The plain object that [createMessageFromWebhook] and
    [createOutgoingMessage] build and hand to [new Message(...)]. *)
Record MessageData : Type := mkData {
  data_messageId : option string;
  data_wa_id : option string;
  data_text : string;
  data_messageType : string;
  data_fromNumber : option string;
  data_toNumber : option string;
  data_contactName : string;
  data_timestamp : Js.jsnum;
  data_isOutgoing : bool;
  data_status : string
}.

(** The state the backend runs in: the collection, the wall clock, the
    random source and the one environment variable the core reads. *)
Record World : Type := mkWorld {
  docs : list Doc;
  time : nat -> Z;
  reads : nat;
  random36 : nat -> string;
  draws : nat;
  BUSINESS_PHONE_NUMBER : option string
}.

Definition with_docs (w : World) (l : list Doc) : World :=
  mkWorld l (time w) (reads w) (random36 w) (draws w) (BUSINESS_PHONE_NUMBER w).

(** Sequential code over the world. *)
Definition M (A : Type) : Type := World -> A * World.

Definition ret {A} (a : A) : M A := fun w => (a, w).

Definition bind {A B} (m : M A) (k : A -> M B) : M B :=
  fun w => let '(a, w') := m w in k a w'.

Declare Scope js_scope.
Delimit Scope js_scope with js.
Notation "x <- m ;; k" := (bind m (fun x => k))
  (at level 61, m at next level, right associativity) : js_scope.
Notation "m ;;; k" := (bind m (fun _ => k))
  (at level 61, right associativity) : js_scope.

Definition exec {A} (m : M A) (w : World) : World := snd (m w).
Definition eval {A} (m : M A) (w : World) : A := fst (m w).

(** [for (const x of xs) { await body(x) }]. *)
Fixpoint forEach {A} (body : A -> M unit) (xs : list A) : M unit :=
  match xs with
  | [] => ret tt
  | x :: r => (body x ;;; forEach body r)%js
  end.

(** [new Date()] and [Date.now()]: the next reading of the clock, in
    milliseconds. *)
Definition Date_now : M Z :=
  fun w => (time w (reads w),
            mkWorld (docs w) (time w) (S (reads w)) (random36 w) (draws w)
                    (BUSINESS_PHONE_NUMBER w)).

(** [process.env.BUSINESS_PHONE_NUMBER]. *)
Definition process_env_BUSINESS_PHONE_NUMBER : M (option string) :=
  fun w => (BUSINESS_PHONE_NUMBER w, w).

(** [Math.random().toString(36).substr(2, 9)]: the next random suffix. *)
Definition Math_random36 : M string :=
  fun w => (random36 w (draws w),
            mkWorld (docs w) (time w) (reads w) (random36 w) (S (draws w))
                    (BUSINESS_PHONE_NUMBER w)).

(** A stable sort, for [Array.prototype.sort] and for the store's [sort]:
    elements that compare equal keep their order. *)
Fixpoint insert_by {A} (le : A -> A -> bool) (x : A) (l : list A) : list A :=
  match l with
  | [] => [x]
  | y :: r => if le x y then x :: l else y :: insert_by le x r
  end.

Definition sort_by {A} (le : A -> A -> bool) (l : list A) : list A :=
  fold_right (insert_by le) [] l.

(** The operations of the Mongoose model [Message] that the backend calls,
    with the behaviour the library documents for this schema: [required]
    on a String path rejects [undefined] and the empty string, a Number
    path does not cast [NaN], an [enum] path accepts its listed values
    only, [save] runs the validators and the unique index, [updateOne]
    runs neither and never inserts. *)
Module Message.

Definition messageType_enum : list string :=
  ["text"; "image"; "audio"; "video"; "document"].

Definition status_enum : list string :=
  ["sent"; "delivered"; "read"; "failed"; "received"].

Definition mem (s : string) (l : list string) : bool :=
  existsb (String.eqb s) l.

(** Why [save] rejects. *)
Inductive SaveError : Type :=
| ValidationError (paths : list string)
| DuplicateKey.

(** A [required: true] path of type String rejects [undefined] and the
    empty string. *)
Definition required (path : string) (v : option string) : list string :=
  if Js.truthy v then [] else [path].

Definition in_enum (path : string) (v : string) (enum : list string)
  : list string :=
  if mem v enum then [] else [path].

(** A path of type Number does not cast [NaN]. *)
Definition number (path : string) (v : Js.jsnum) : list string :=
  match v with
  | Js.Num _ => []
  | Js.NaN => [path]
  end.

(** The paths of [messageSchema] that fail validation. *)
Definition invalid_paths (d : MessageData) : list string :=
  required "messageId" (data_messageId d)
  ++ required "wa_id" (data_wa_id d)
  ++ in_enum "messageType" (data_messageType d) messageType_enum
  ++ required "fromNumber" (data_fromNumber d)
  ++ required "toNumber" (data_toNumber d)
  ++ number "timestamp" (data_timestamp d)
  ++ in_enum "status" (data_status d) status_enum.

(** The document of a validated object, stamped with [now]. *)
Definition cast (d : MessageData) (now : Z) : option Doc :=
  match data_messageId d, data_wa_id d, data_fromNumber d, data_toNumber d,
        data_timestamp d with
  | Some i, Some w, Some f, Some t, Js.Num ts =>
      Some (mkDoc i w (data_text d) (data_messageType d) f t
                  (data_contactName d) ts (data_isOutgoing d)
                  (data_status d) now now)
  | _, _, _, _, _ => None
  end.

(** [findOne(filter)]: the first matching document, or [null]. *)
Definition findOne (filter : Doc -> bool) : M (option Doc) :=
  fun w => (List.find filter (docs w), w).

(** [.sort({ timestamp: 1 })] and [.sort({ timestamp: -1 })]. *)
Definition timestamp_asc (a b : Doc) : bool := (timestamp a <=? timestamp b)%Z.
Definition timestamp_desc (a b : Doc) : bool := (timestamp b <=? timestamp a)%Z.

(** [find(filter).sort(order)]; documents with equal keys come in
    insertion order. *)
Definition find_sorted (filter : Doc -> bool) (le : Doc -> Doc -> bool)
  : M (list Doc) :=
  fun w => (sort_by le (List.filter filter (docs w)), w).

(** [findOne(filter).sort(order)]: the first document in that order. *)
Definition findOne_sorted (filter : Doc -> bool) (le : Doc -> Doc -> bool)
  : M (option Doc) :=
  fun w => (hd_error (sort_by le (List.filter filter (docs w))), w).

(** [distinct(path, filter)]; the order of the values is not specified by
    the store. *)
Definition distinct (path : Doc -> string) (filter : Doc -> bool)
  : M (list string) :=
  fun w => (nodup string_dec (map path (List.filter filter (docs w))), w).

Definition countDocuments : M nat :=
  fun w => (List.length (docs w), w).

(** The filter [{ messageId: v }]; no document has a missing
    [messageId], so [undefined] matches none. *)
Definition by_messageId (v : option string) (d : Doc) : bool :=
  Js.strict_eq (Some (messageId d)) v.

(** [new Message(data).save()]: validation, the unique index on
    [messageId], then the insert stamped with the clock.  (A validated
    object always casts: the last branch is not reached.) *)
Definition save (d : MessageData) : M (Doc + SaveError) :=
  fun w =>
    match invalid_paths d with
    | [] =>
        if existsb (by_messageId (data_messageId d)) (docs w)
        then (inr DuplicateKey, w)
        else
          let '(now, w1) := Date_now w in
          match cast d now with
          | Some doc => (inl doc, with_docs w1 (docs w1 ++ [doc]))
          | None => (inr (ValidationError []), w)
          end
    | paths => (inr (ValidationError paths), w)
    end.

(** The update document [{ status, updatedAt }] applied to one document. *)
Definition set_status (s : string) (now : Z) (d : Doc) : Doc :=
  mkDoc (messageId d) (wa_id d) (text d) (messageType d) (fromNumber d)
        (toNumber d) (contactName d) (timestamp d) (isOutgoing d)
        s (createdAt d) now.

Fixpoint update_first (filter : Doc -> bool) (f : Doc -> Doc) (l : list Doc)
  : list Doc * nat :=
  match l with
  | [] => ([], 0)
  | d :: r =>
      if filter d then (f d :: r, 1)
      else let '(r', n) := update_first filter f r in (d :: r', n)
  end.

(** [updateOne(filter, { status, updatedAt })]: the first matching
    document is updated, nothing is inserted; the result is
    [modifiedCount]. *)
Definition updateOne (filter : Doc -> bool) (s : string) (now : Z) : M nat :=
  fun w =>
    let '(l, n) := update_first filter (set_status s now) (docs w) in
    (n, with_docs w l).

End Message.

(** ** The webhook processor ([processWebhooks.js]) *)

(** One element of [value.contacts]: [wa_id] and [profile?.name]. *)
Record Contact : Type := mkContact {
  contact_wa_id : option string;
  profile_name : option string
}.

(** One element of [value.messages]: [id], [from], [type], [text?.body]
    and [timestamp]. *)
Record WebhookMessage : Type := mkMessage {
  msg_id : option string;
  msg_from : option string;
  msg_type : option string;
  msg_text_body : option string;
  msg_timestamp : option string
}.

(** One element of [value.statuses]: [id], [meta_msg_id] and [status]
    (a string). *)
Record StatusEntry : Type := mkStatus {
  st_id : option string;
  st_meta_msg_id : option string;
  st_status : string
}.

(** [entry[0].changes[0].value]; [display_phone_number] is
    [value.metadata?.display_phone_number]. *)
Record Value : Type := mkValue {
  display_phone_number : option string;
  contacts : option (list Contact);
  messages : option (list WebhookMessage);
  statuses : option (list StatusEntry)
}.

Record Change : Type := mkChange { value : option Value }.
Record Entry : Type := mkEntry { changes : option (list Change) }.
Record MetaData : Type := mkMetaData { entry : option (list Entry) }.
Record WebhookData : Type := mkWebhookData { metaData : option MetaData }.

(** The object [extractWebhookData] returns. *)
Record WebhookInfo : Type := mkInfo {
  info_value : Value;
  info_businessNumber : option string;
  info_messages : option (list WebhookMessage);
  info_statuses : option (list StatusEntry)
}.

Module Processor.

Definition saveMessage (messageData : MessageData) : M bool :=
  (existingMessage <-
     Message.findOne (Message.by_messageId (data_messageId messageData)) ;;
   match existingMessage with
   | Some _ => ret false
   | None =>
       saved <- Message.save messageData ;;
       match saved with
       | inl _ => ret true
       | inr _ => ret false
       end
   end)%js.

Definition updateMessageStatus (messageId : string) (status : string)
  : M unit :=
  (now <- Date_now ;;
   result <- Message.updateOne (Message.by_messageId (Some messageId))
                               status now ;;
   ret tt)%js.

Definition extractWebhookData (webhookData : WebhookData)
  : M (option WebhookInfo) :=
  match metaData webhookData with
  | Some {| entry := Some (entry0 :: _) |} =>
      match changes entry0 with
      | Some ({| value := Some value |} :: _) =>
          (env <- process_env_BUSINESS_PHONE_NUMBER ;;
           let businessNumber := Js.or (display_phone_number value) env in
           ret (Some (mkInfo value businessNumber (messages value)
                             (statuses value))))%js
      | _ => ret None
      end
  | _ => ret None
  end.

Definition getContactInfoFromWebhook (fromNumber : option string)
           (contacts : option (list Contact)) : option string * string :=
  let waId := fromNumber in
  let name := "Unknown" in
  match contacts with
  | Some ((contact0 :: _) as contacts) =>
      let contact :=
        match List.find (fun c => Js.strict_eq (contact_wa_id c) fromNumber)
                        contacts with
        | Some c => c
        | None => contact0
        end in
      let waId := contact_wa_id contact in
      let name := Js.or_default (profile_name contact) name in
      (waId, name)
  | _ => (waId, name)
  end.

(** The [catch] branch is not reachable on entries of the types above;
    the function keeps its nullable result. *)
Definition createMessageFromWebhook (message : WebhookMessage)
           (value : Value) (businessNumber : option string)
  : option MessageData :=
  let '(contactName, isOutgoing, waId, toNumber) :=
    if Js.truthy businessNumber
       && Js.strict_eq (msg_from message) businessNumber
    then
      ("You", true, Some "business",
       match contacts value with
       | Some (contact0 :: _) => contact_wa_id contact0
       | _ => None
       end)
    else
      let contactInfo :=
        getContactInfoFromWebhook (msg_from message) (contacts value) in
      (snd contactInfo, false, fst contactInfo, businessNumber) in
  Some {| data_messageId := msg_id message;
          data_wa_id := waId;
          data_text := Js.or_default (msg_text_body message) "";
          data_messageType := Js.or_default (msg_type message) "text";
          data_fromNumber := msg_from message;
          data_toNumber := toNumber;
          data_contactName := contactName;
          data_timestamp :=
            Js.mul (Js.parseInt (msg_timestamp message)) (Js.Num 1000);
          data_isOutgoing := isOutgoing;
          data_status := if isOutgoing then "sent" else "received" |}.

Definition processMessages (messages : list WebhookMessage) (value : Value)
           (businessNumber : option string) : M unit :=
  forEach
    (fun message =>
       match createMessageFromWebhook message value businessNumber with
       | Some messageData => (saveMessage messageData ;;; ret tt)%js
       | None => ret tt
       end)
    messages.

Definition processStatusUpdates (statuses : list StatusEntry) : M unit :=
  forEach
    (fun status =>
       let messageId := Js.or (st_id status) (st_meta_msg_id status) in
       match messageId with
       | Some id =>
           if Js.truthy messageId
           then updateMessageStatus id (st_status status)
           else ret tt
       | None => ret tt
       end)
    statuses.

(** [fileContent] is the result of reading and parsing the file: [None]
    when either throws, which the [catch] turns into a skip. *)
Definition processWebhookFile (fileContent : option WebhookData) : M unit :=
  match fileContent with
  | None => ret tt
  | Some webhookData =>
      (webhookInfo <- extractWebhookData webhookData ;;
       match webhookInfo with
       | None => ret tt
       | Some webhookInfo =>
           (match info_messages webhookInfo with
            | Some ((_ :: _) as messages) =>
                processMessages messages (info_value webhookInfo)
                                (info_businessNumber webhookInfo)
            | _ => ret tt
            end) ;;;
           (match info_statuses webhookInfo with
            | Some ((_ :: _) as statuses) => processStatusUpdates statuses
            | _ => ret tt
            end)
       end)%js
  end.

(** The loop of [processAllWebhookFiles] over the files of the folder. *)
Definition processAllWebhookFiles (jsonFiles : list (option WebhookData))
  : M unit :=
  forEach processWebhookFile jsonFiles.

End Processor.

(** ** The message controller ([controllers/messageController.js]) *)

(** The object [buildConversationSummary] returns. *)
Record Summary : Type := mkSummary {
  conv_wa_id : string;
  conv_phoneNumber : string;
  conv_contactName : string;
  conv_lastMessage : string;
  conv_lastMessageTime : Z;
  conv_isLastOutgoing : bool
}.

(** The [error] member of a failure body: a literal of the source, or
    ['Validation failed: '] followed by the messages of the failing paths. *)
Inductive ErrorText : Type :=
| Literal (s : string)
| ValidationFailed (paths : list string).

(** The JSON bodies of the four operations. *)
Inductive Body : Type :=
| Conversations (conversations : list Summary)
| Messages (messages : list Doc)
| Sent (message : Doc)
| Health (status : string) (totalMessages totalConversations : nat)
         (timestamp : Z)
| Failure (error : ErrorText).

Record Response : Type := mkResponse {
  statusCode : nat;
  success : bool;
  body : Body
}.

(** What [validateMessageInput] returns. *)
Record Validation : Type := mkValidation {
  isValid : bool;
  error : option string
}.

Module Controller.

Definition in_conversation (waId : string) (d : Doc) : bool :=
  (wa_id d =? waId) || (toNumber d =? waId).

Definition incoming_of (waId : string) (d : Doc) : bool :=
  (wa_id d =? waId) && negb (isOutgoing d).

Definition incoming (d : Doc) : bool := negb (isOutgoing d).

Definition buildConversationSummary (waId : string) : M (option Summary) :=
  (lastMessage <-
     Message.findOne_sorted (in_conversation waId) Message.timestamp_desc ;;
   contactInfo <- Message.findOne (incoming_of waId) ;;
   match lastMessage with
   | None => ret None
   | Some lastMessage =>
       ret (Some
              {| conv_wa_id := waId;
                 conv_phoneNumber :=
                   Js.or_default (option_map fromNumber contactInfo) waId;
                 conv_contactName :=
                   Js.or_default (option_map contactName contactInfo)
                                 "Unknown";
                 conv_lastMessage :=
                   Js.or_default (Some (text lastMessage)) "No message";
                 conv_lastMessageTime := timestamp lastMessage;
                 conv_isLastOutgoing := isOutgoing lastMessage |})
   end)%js.

(** The loop that pushes every non-null summary. *)
Fixpoint summaries (senderIds : list string) : M (list Summary) :=
  match senderIds with
  | [] => ret []
  | waId :: rest =>
      (conversationData <- buildConversationSummary waId ;;
       conversations <- summaries rest ;;
       ret match conversationData with
           | Some c => c :: conversations
           | None => conversations
           end)%js
  end.

(** The comparator [(a, b) => b.lastMessageTime - a.lastMessageTime]. *)
Definition latest_first (a b : Summary) : bool :=
  (conv_lastMessageTime b <=? conv_lastMessageTime a)%Z.

Definition getConversations : M Response :=
  (senderIds <- Message.distinct wa_id incoming ;;
   conversations <- summaries senderIds ;;
   ret (mkResponse 200 true
          (Conversations (sort_by latest_first conversations))))%js.

Definition getMessages (waId : option string) : M Response :=
  match waId with
  | Some id =>
      if Js.truthy waId then
        (messages <-
           Message.find_sorted (in_conversation id) Message.timestamp_asc ;;
         ret (mkResponse 200 true (Messages messages)))%js
      else ret (mkResponse 400 false (Failure (Literal "wa_id is required")))
  | None => ret (mkResponse 400 false (Failure (Literal "wa_id is required")))
  end.

Definition validateMessageInput (text waId : option string) : Validation :=
  if negb (Js.truthy text)
     || negb (Js.truthy (option_map Js.trim text))
  then mkValidation false (Some "Message text is required")
  else if negb (Js.truthy waId)
  then mkValidation false (Some "wa_id is required")
  else mkValidation true None.

Definition getContactName (waId : string) (providedName : option string)
  : M string :=
  (existingMessage <- Message.findOne (incoming_of waId) ;;
   ret (Js.or_default
          (Js.or (option_map contactName existingMessage) providedName)
          "Unknown"))%js.

Definition createOutgoingMessage (waId text businessPhone contactName : string)
  : M MessageData :=
  (now <- Date_now ;;
   random <- Math_random36 ;;
   timestamp <- Date_now ;;
   ret {| data_messageId :=
            Some ("msg_" ++ Js.toString now ++ "_" ++ random);
          data_wa_id := Some "business";
          data_text := Js.trim text;
          data_messageType := "text";
          data_fromNumber := Some businessPhone;
          data_toNumber := Some waId;
          data_contactName := "You";
          data_timestamp := Js.Num timestamp;
          data_isOutgoing := true;
          data_status := "sent" |})%js.

(** [waId] is the path parameter, [text] and [contactName] the members of
    the request body.  Past the validation both [waId] and [text] are
    non-empty strings; the last branch stands for the [TypeError] that
    the [catch] would turn into a 500 on any other value. *)
Definition sendMessage (waId text contactName : option string) : M Response :=
  let validation := validateMessageInput text waId in
  if negb (isValid validation) then
    ret (mkResponse 400 false
           (Failure (Literal (Js.or_default (error validation) ""))))
  else
    match waId, text with
    | Some waId, Some text =>
        (env <- process_env_BUSINESS_PHONE_NUMBER ;;
         let businessPhone := Js.or_default env "+1234567890" in
         contactNameToUse <- getContactName waId contactName ;;
         messageData <-
           createOutgoingMessage waId text businessPhone contactNameToUse ;;
         saved <- Message.save messageData ;;
         match saved with
         | inl savedMessage => ret (mkResponse 200 true (Sent savedMessage))
         | inr (Message.ValidationError paths) =>
             ret (mkResponse 400 false (Failure (ValidationFailed paths)))
         | inr Message.DuplicateKey =>
             ret (mkResponse 400 false
                    (Failure (Literal "Message with this ID already exists")))
         end)%js
    | _, _ =>
        ret (mkResponse 500 false (Failure (Literal "Failed to send message")))
    end.

(** The member [uptime] of the body is left out. *)
Definition getHealth : M Response :=
  (totalMessages <- Message.countDocuments ;;
   uniqueConversations <- Message.distinct wa_id incoming ;;
   now <- Date_now ;;
   ret (mkResponse 200 true
          (Health "OK" totalMessages (List.length uniqueConversations) now)))%js.

End Controller.

(** ** Vocabulary of the statements *)

(** The [messageId] values of a collection, in insertion order. *)
Definition ids (l : list Doc) : list string := map messageId l.

(** The unique index on [messageId]. *)
Definition unique_ids (l : list Doc) : Prop := NoDup (ids l).

(** Some document of the collection carries this [messageId]. *)
Definition known (id : option string) (l : list Doc) : bool :=
  existsb (Message.by_messageId id) l.

(** The object passes the validators of the schema. *)
Definition acceptable (d : MessageData) : bool :=
  match Message.invalid_paths d with
  | [] => true
  | _ :: _ => false
  end.

(** A document without its audit path [updatedAt]. *)
Definition content (d : Doc) : Doc :=
  mkDoc (messageId d) (wa_id d) (text d) (messageType d) (fromNumber d)
        (toNumber d) (contactName d) (timestamp d) (isOutgoing d)
        (status d) (createdAt d) 0.

(** Two documents that agree on every path but [status] and [updatedAt]. *)
Definition same_but_status (d d' : Doc) : Prop :=
  messageId d' = messageId d /\ wa_id d' = wa_id d /\ text d' = text d
  /\ messageType d' = messageType d /\ fromNumber d' = fromNumber d
  /\ toNumber d' = toNumber d /\ contactName d' = contactName d
  /\ timestamp d' = timestamp d /\ isOutgoing d' = isOutgoing d
  /\ createdAt d' = createdAt d.

(** A webhook document with one entry, one change and this [value]. *)
Definition document (v : Value) : WebhookData :=
  mkWebhookData (Some (mkMetaData (Some [mkEntry (Some [mkChange (Some v)])]))).

(** A world with this collection and this configured business address: the
    clock starts at [1700000000000] and advances by one millisecond per
    reading. *)
Definition world (l : list Doc) (env : option string) : World :=
  mkWorld l (fun n => 1700000000000 + Z.of_nat n)%Z 0
          (fun _ => "k3j9x0a1b") 0 env.

(** The scenario of one inbound text message from Alice. *)
Definition alice : Contact := mkContact (Some "+1111") (Some "Alice").

Definition m1 : WebhookMessage :=
  mkMessage (Some "m1") (Some "+1111") (Some "text") (Some "hi") (Some "1000").

Definition scenario (display : option string) : Value :=
  mkValue display (Some [alice]) (Some [m1]) None.

(** The message and status entries of a batch, none when the member is
    absent. *)
Definition entries (info : WebhookInfo) : list WebhookMessage :=
  match info_messages info with Some l => l | None => [] end.

Definition status_entries (info : WebhookInfo) : list StatusEntry :=
  match info_statuses info with Some l => l | None => [] end.

Definition contact_list (v : Value) : list Contact :=
  match contacts v with Some l => l | None => [] end.

(** The address of the first contact of the batch. *)
Definition first_contact (v : Value) : option string :=
  match contact_list v with
  | c :: _ => contact_wa_id c
  | [] => None
  end.

(** The contact identity of an inbound record: the sender when a contact
    has exactly that address or when the batch has no contact, else the
    first contact. *)
Definition inbound_identity (v : Value) (d : Doc) : Prop :=
  ((exists c, In c (contact_list v)
              /\ contact_wa_id c = Some (fromNumber d)) ->
   wa_id d = fromNumber d)
  /\ ((forall c, In c (contact_list v) ->
                 contact_wa_id c <> Some (fromNumber d)) ->
      match contact_list v with
      | c :: _ => contact_wa_id c = Some (wa_id d)
      | [] => wa_id d = fromNumber d
      end).

(** Direction resolution as the processor performs it: a record sent by
    the business carries the fixed identity ["business"] and is addressed
    to the first contact. *)
Definition resolved_direction (bn : option string) (v : Value) (d : Doc)
  : Prop :=
  (Some (fromNumber d) = bn ->
   isOutgoing d = true /\ wa_id d = "business"
   /\ first_contact v = Some (toNumber d))
  /\ (Some (fromNumber d) <> bn ->
      isOutgoing d = false /\ inbound_identity v d).

(** Direction resolution in the words of the specification: a record sent
    by the business carries the first contact's address as its identity. *)
Definition claimed_direction (bn : option string) (v : Value) (d : Doc)
  : Prop :=
  (Some (fromNumber d) = bn ->
   isOutgoing d = true /\ first_contact v = Some (wa_id d))
  /\ (Some (fromNumber d) <> bn ->
      isOutgoing d = false /\ inbound_identity v d).

(** A batch with one message sent by the business to Alice. *)
Definition m2 : WebhookMessage :=
  mkMessage (Some "m2") (Some "+9999") (Some "text") (Some "hello")
            (Some "1001").

Definition outbound_batch : Value :=
  mkValue (Some "+9999") (Some [alice]) (Some [m2]) None.

(** A batch with one inbound message stamped with second zero. *)
Definition m0 : WebhookMessage :=
  mkMessage (Some "m0") (Some "+1111") (Some "text") (Some "hi") (Some "0").




(** The [messageId] that the next call of [createOutgoingMessage] builds. *)
Definition next_messageId (w : World) : string :=
  "msg_" ++ Js.toString (time w (reads w)) ++ "_" ++ random36 w (draws w).

(** The members of a success body. *)
Definition messages_of (r : Response) : list Doc :=
  match body r with Messages ms => ms | _ => [] end.

Definition conversations_of (r : Response) : list Summary :=
  match body r with Conversations cs => cs | _ => [] end.

(** The values that [distinct('wa_id', { isOutgoing: false })] returns. *)
Definition inbound_ids (l : list Doc) : list string :=
  nodup string_dec (map wa_id (filter Controller.incoming l)).

(** Chronological order in the words of the specification: of two
    messages of the result, A precedes B iff A.timestamp <= B.timestamp. *)
Definition claimed_chronological (ms : list Doc) : Prop :=
  forall i j a b,
    i <> j -> nth_error ms i = Some a -> nth_error ms j = Some b ->
    ((i < j)%nat <-> (timestamp a <= timestamp b)%Z).

(** Chronological order as the sort guarantees it: a message that precedes
    another is not younger, and an older message precedes a younger one. *)
Definition chronological (ms : list Doc) : Prop :=
  forall i j a b,
    nth_error ms i = Some a -> nth_error ms j = Some b ->
    ((i < j)%nat -> (timestamp a <= timestamp b)%Z)
    /\ ((timestamp a < timestamp b)%Z -> (i < j)%nat).

(** Two inbound messages of the same conversation, received within the
    same second. *)
Definition tie_a : Doc :=
  mkDoc "t1" "+1111" "one" "text" "+1111" "+9999" "Alice" 1000000 false
        "received" 0 0.

Definition tie_b : Doc :=
  mkDoc "t2" "+1111" "two" "text" "+1111" "+9999" "Alice" 1000000 false
        "received" 0 0.

(** A collection where Alice has written and Bob was only written to. *)
Definition from_alice : Doc :=
  mkDoc "a1" "+1111" "hi" "text" "+1111" "+9999" "Alice" 1000000 false
        "received" 0 0.

Definition to_bob : Doc :=
  mkDoc "b1" "business" "hello Bob" "text" "+9999" "+2222" "You" 2000000 true
        "sent" 0 0.

(** The status entry designates this document. *)
Definition applies (st : StatusEntry) (d : Doc) : bool :=
  Js.truthy (Js.or (st_id st) (st_meta_msg_id st))
  && Message.by_messageId (Js.or (st_id st) (st_meta_msg_id st)) d.

(** One status entry applied to one document at time [now]. *)
Definition apply_status (now : Z) (st : StatusEntry) (d : Doc) : Doc :=
  if applies st d then Message.set_status (st_status st) now d else d.

(** A list of status entries applied in order to one document, audit
    time set aside. *)
Definition settle (sts : list StatusEntry) (d : Doc) : Doc :=
  fold_left (fun d st => apply_status 0 st d) sts d.

(** The status that the last designating entry of the list carries. *)
Definition last_status (sts : list StatusEntry) (d : Doc) (acc : option string)
  : option string :=
  fold_left (fun acc st => if applies st d then Some (st_status st) else acc)
            sts acc.

(** The document of the inbound scenario followed by its read receipt. *)
Definition read_receipt : StatusEntry := mkStatus (Some "m1") None "read".

Definition scenario_with_receipt : Value :=
  mkValue (Some "+9999") (Some [alice]) (Some [m1]) (Some [read_receipt]).

(** One collection extends another: the documents of the first are still
    there, in place and up to [status] and [updatedAt], followed by the
    added ones. *)
Definition extends (l l' : list Doc) : Prop :=
  exists kept added,
    l' = (kept ++ added)%list /\ Forall2 same_but_status l kept.

(** What the schema and the two builders guarantee of a stored document. *)
Definition well_formed (d : Doc) : Prop :=
  messageId d <> "" /\ wa_id d <> "" /\ fromNumber d <> ""
  /\ toNumber d <> "" /\ contactName d <> ""
  /\ In (messageType d) Message.messageType_enum
  /\ (isOutgoing d = true -> contactName d = "You").

(** A batch with an inbound message and no business address anywhere. *)
Definition anonymous_batch : Value :=
  mkValue None (Some [alice]) (Some [m1]) None.

(** A batch with a message of the business and no contact. *)
Definition lonely_batch : Value :=
  mkValue (Some "+9999") None (Some [m2]) None.

(** A later inbound message of Alice under another display name. *)
Definition from_alice_renamed : Doc :=
  mkDoc "a2" "+1111" "bye" "text" "+1111" "+9999" "Alice B." 3000000 false
        "received" 0 0.

(** Two receipts for [m1], delivered and then read. *)
Definition delivered_receipt : StatusEntry :=
  mkStatus None (Some "m1") "delivered".

(** The record of [m1] as the inbound scenario stores it. *)
Definition stored_m1 : Doc :=
  mkDoc "m1" "+1111" "hi" "text" "+1111" "+9999" "Alice" 1000000 false
        "received" 0 0.

(** The status entries of a list of files, in the order of processing;
    the world only gives the configured business address. *)
Definition all_statuses (files : list (option WebhookData)) (w : World)
  : list StatusEntry :=
  flat_map
    (fun file =>
       match file with
       | Some data =>
           match eval (Processor.extractWebhookData data) w with
           | Some info => status_entries info
           | None => []
           end
       | None => []
       end)
    files.

(** Every message entry of the files that passes the schema has its
    [messageId] in the collection. *)
Definition all_entries_known (files : list (option WebhookData)) (w : World)
  : Prop :=
  forall data info m entry_data,
    In (Some data) files ->
    eval (Processor.extractWebhookData data) w = Some info ->
    In m (entries info) ->
    Processor.createMessageFromWebhook m (info_value info)
                                       (info_businessNumber info)
    = Some entry_data ->
    acceptable entry_data = true ->
    known (data_messageId entry_data) (docs w) = true.

(** A file whose status entry comes before the message it is about, and
    the file with that message. *)
Definition early_receipt : Value :=
  mkValue (Some "+9999") None None (Some [read_receipt]).

(** ** The client ([ChatWindow.jsx] and [App.jsx]) *)

(** One element of the array that [groupMessagesByDate] returns. *)
Record Group : Type := mkGroup {
  group_date : option string;
  group_messages : list Doc
}.

Module ChatWindow.

Section Grouping.

(** The label that [formatMessageDate] computes from the reading of the
    clock and a timestamp that is not zero: "Today", "Yesterday", a day
    name or a date.  The calendar arithmetic in the local time zone and
    the formatting library are not embedded. *)
Variable date_label : Z -> Z -> string.

Definition formatMessageDate (timestamp : Z) : M string :=
  if (timestamp =? 0)%Z then ret "Unknown Date"
  else (now <- Date_now ;; ret (date_label now timestamp))%js.

(** The body of [messages.forEach] over the three variables [groups],
    [currentDate] and [currentGroup]; an element of the array that is not
    an object ([None]) is skipped. *)
Fixpoint groupMessages_loop (messages : list (option Doc))
         (groups : list Group) (currentDate : option string)
         (currentGroup : list Doc)
  : M (list Group * option string * list Doc) :=
  match messages with
  | [] => ret (groups, currentDate, currentGroup)
  | None :: rest => groupMessages_loop rest groups currentDate currentGroup
  | Some message :: rest =>
      (messageDate <- formatMessageDate (timestamp message) ;;
       if negb (Js.strict_eq (Some messageDate) currentDate) then
         groupMessages_loop
           rest
           (match currentGroup with
            | _ :: _ => groups ++ [mkGroup currentDate currentGroup]
            | [] => groups
            end)%list
           (Some messageDate) [message]
       else
         groupMessages_loop rest groups currentDate
                            (currentGroup ++ [message])%list)%js
  end.

Definition groupMessagesByDate (messages : list (option Doc))
  : M (list Group) :=
  (state <- groupMessages_loop messages [] None [] ;;
   let '(groups, currentDate, currentGroup) := state in
   ret (match currentGroup with
        | _ :: _ => groups ++ [mkGroup currentDate currentGroup]
        | [] => groups
        end)%list)%js.

End Grouping.

End ChatWindow.

Module App.

(** The time value of [new Date(n)]: [NaN] outside the range of dates. *)
Definition Date_of (n : Z) : Js.jsnum :=
  if ((-8640000000000000 <=? n) && (n <=? 8640000000000000))%Z
  then Js.Num n else Js.NaN.

(** The comparator
    [(a, b) => new Date(b.lastMessageTime || 0) - new Date(a.lastMessageTime || 0)]
    does not ask for [b] before [a]: its result is not positive. *)
Definition not_after (a b : Summary) : bool :=
  match Date_of (conv_lastMessageTime b), Date_of (conv_lastMessageTime a) with
  | Js.Num tb, Js.Num ta => negb (0 <? tb - ta)%Z
  | _, _ => true
  end.

(** [[...conversations].sort(comparator)]; the stable sort stands for the
    engine's on lists whose times are all dates, where the comparator is
    a consistent order. *)
Definition sortConversationsByTime (conversations : list Summary)
  : list Summary :=
  sort_by not_after conversations.

End App.

(** The elements of an array that are objects. *)
Definition objects {A} (l : list (option A)) : list A :=
  flat_map (fun x => match x with Some a => [a] | None => [] end) l.

(** No two neighbours of the list carry the same date. *)
Fixpoint distinct_neighbours (gs : list Group) : Prop :=
  match gs with
  | g1 :: ((g2 :: _) as rest) =>
      group_date g1 <> group_date g2 /\ distinct_neighbours rest
  | _ => True
  end.

(** A group that has a date and at least one message. *)
Definition proper_group (g : Group) : Prop :=
  group_date g <> None /\ group_messages g <> [].

(** The three variables of the grouping loop, read as the groups built so
    far with the current group closed. *)
Definition closed (groups : list Group) (currentDate : option string)
           (currentGroup : list Doc) : list Group :=
  match currentGroup with
  | _ :: _ => (groups ++ [mkGroup currentDate currentGroup])%list
  | [] => groups
  end.

(** A label by day number, for the examples. *)
Definition day_of (now timestamp : Z) : string :=
  Js.toString (timestamp / 86400000).

(** What the grouping loop keeps true of its three variables: before the
    first message nothing is built; after it the current group is not
    empty and has a date, and closing it gives proper groups with
    distinct neighbours. *)
Definition grouping_invariant (groups : list Group)
           (currentDate : option string) (currentGroup : list Doc) : Prop :=
  (currentGroup = [] /\ groups = [] /\ currentDate = None)
  \/ (currentGroup <> [] /\ currentDate <> None
      /\ Forall proper_group (groups ++ [mkGroup currentDate currentGroup])
      /\ distinct_neighbours (groups ++ [mkGroup currentDate currentGroup])).

(** Three messages of two days, and an element that is no object. *)
Definition day_one_a : Doc :=
  mkDoc "d1" "+1111" "one" "text" "+1111" "+9999" "Alice" 86400000 false
        "received" 0 0.

Definition day_one_b : Doc :=
  mkDoc "d2" "+1111" "two" "text" "+1111" "+9999" "Alice" 86400001 false
        "received" 0 0.

Definition day_two : Doc :=
  mkDoc "d3" "business" "three" "text" "+9999" "+1111" "You" 172800000 true
        "sent" 0 0.


(** A collection that already holds the [messageId] that the next call of
    [createOutgoingMessage] builds in [world]. *)
Definition collided : Doc :=
  mkDoc "msg_1700000000000_k3j9x0a1b" "business" "first" "text" "+1234567890"
        "+1111" "You" 1700000000000 true "sent" 1700000000000 1700000000000.

(** Persistence of a sent message in the words of the specification: for
    a text that is not empty once trimmed and a present conversation id,
    validation passes and a record with [isOutgoing = true],
    [status = "sent"] and [contactName = "You"] is persisted. *)
Definition claimed_send_persists (w : World) (waId text : string)
           (name : option string) : Prop :=
  isValid (Controller.validateMessageInput (Some text) (Some waId)) = true
  /\ exists d,
      docs (exec (Controller.sendMessage (Some waId) (Some text) name) w)
      = (docs w ++ [d])%list
      /\ isOutgoing d = true /\ status d = "sent" /\ contactName d = "You".

(** The object elements of an array, each with the label that
    [formatMessageDate] returns for it when they are read in order. *)
Fixpoint labelled (date_label : Z -> Z -> string)
         (messages : list (option Doc)) : M (list (Doc * option string)) :=
  match messages with
  | [] => ret []
  | None :: rest => labelled date_label rest
  | Some message :: rest =>
      (label <- ChatWindow.formatMessageDate date_label (timestamp message) ;;
       others <- labelled date_label rest ;;
       ret ((message, Some label) :: others))%js
  end.

(** The messages of a group, each with the date of the group. *)
Definition dated (date : option string) (messages : list Doc)
  : list (Doc * option string) :=
  map (fun message => (message, date)) messages.

(** A label that depends on the reading of the clock alone, for the
    examples: the date changes with every reading. *)
Definition reading_of (now timestamp : Z) : string := Js.toString now.

(** Two more contacts, who wrote within the same second. *)
Definition from_carol : Doc :=
  mkDoc "c1" "+3333" "hey" "text" "+3333" "+9999" "Carol" 2000000 false
        "received" 0 0.

Definition from_dave : Doc :=
  mkDoc "e1" "+4444" "yo" "text" "+4444" "+9999" "Dave" 2000000 false
        "received" 0 0.

(** * Properties *)

Import Processor Controller.
Local Open Scope list_scope.

(** ** The embedding on concrete inputs *)

Example parseInt_decimal : Js.parseInt (Some "1000") = Js.Num 1000.
Proof. reflexivity. Qed.

Example parseInt_prefix : Js.parseInt (Some " -12px") = Js.Num (-12).
Proof. reflexivity. Qed.

Example parseInt_hexadecimal : Js.parseInt (Some "0x1f") = Js.Num 31.
Proof. reflexivity. Qed.

Example parseInt_no_digit :
  Js.parseInt (Some "abc") = Js.NaN /\ Js.parseInt (Some "0x") = Js.NaN
  /\ Js.parseInt None = Js.NaN.
Proof. repeat split. Qed.

Example trim_both_ends : Js.trim "  a b  " = "a b".
Proof. reflexivity. Qed.

Example toString_decimal : Js.toString 1700000000000 = "1700000000000".
Proof. reflexivity. Qed.

Example contact_exact_match :
  getContactInfoFromWebhook
    (Some "+2222")
    (Some [alice; mkContact (Some "+2222") (Some "Bob")])
  = (Some "+2222", "Bob").
Proof. reflexivity. Qed.

Example contact_first_fallback :
  getContactInfoFromWebhook (Some "+3333") (Some [alice])
  = (Some "+1111", "Alice").
Proof. reflexivity. Qed.

Example contact_self_fallback :
  getContactInfoFromWebhook (Some "+3333") None = (Some "+3333", "Unknown").
Proof. reflexivity. Qed.

Example outbound_entry :
  createMessageFromWebhook m2 outbound_batch (Some "+9999")
  = Some (mkData (Some "m2") (Some "business") "hello" "text" (Some "+9999")
                 (Some "+1111") "You" (Js.Num 1001000) true "sent").
Proof. reflexivity. Qed.

Example unsupported_type_is_rejected :
  acceptable (mkData (Some "m3") (Some "+1111") "" "sticker" (Some "+1111")
                     (Some "+9999") "Alice" (Js.Num 1000) false "received")
  = false.
Proof. reflexivity. Qed.

(** The read receipt of the inbound scenario shows in the message list. *)
Example receipt_is_listed :
  map (fun d => (messageId d, status d))
      (messages_of
         (eval (getMessages (Some "+1111"))
               (exec (processWebhookFile
                        (Some (document scenario_with_receipt)))
                     (world [] None))))
  = [("m1", "read")].
Proof. reflexivity. Qed.

(** After a reply to Alice the conversation list reports it as the last
    message of her conversation. *)
Example reply_is_last_message :
  map (fun c => (conv_wa_id c, conv_contactName c, conv_lastMessage c,
                 conv_isLastOutgoing c))
      (conversations_of
         (eval getConversations
               (exec (sendMessage (Some "+1111") (Some "hello") None)
                     (exec (processWebhookFile
                              (Some (document (scenario (Some "+9999")))))
                           (world [] None)))))
  = [("+1111", "Alice", "hello", true)].
Proof. reflexivity. Qed.

Example generated_messageId :
  map messageId
      (docs (exec (sendMessage (Some "+1111") (Some "hello") None)
                  (world [] None)))
  = ["msg_1700000000000_k3j9x0a1b"].
Proof. reflexivity. Qed.

(** ** The state monad *)

Lemma exec_bind {A B} (m : M A) (k : A -> M B) (w : World) :
  exec (bind m k) w = exec (k (eval m w)) (exec m w).
Proof. unfold exec, eval, bind. destruct (m w); reflexivity. Qed.

Lemma eval_bind {A B} (m : M A) (k : A -> M B) (w : World) :
  eval (bind m k) w = eval (k (eval m w)) (exec m w).
Proof. unfold exec, eval, bind. destruct (m w); reflexivity. Qed.

Lemma exec_forEach_cons {A} (body : A -> M unit) (x : A) (r : list A) w :
  exec (forEach body (x :: r)) w = exec (forEach body r) (exec (body x) w).
Proof. simpl. rewrite exec_bind. reflexivity. Qed.

(** ** The stable sort *)

Section Sorting.

Context {A : Type} (le : A -> A -> bool).

Lemma insert_by_perm (x : A) (l : list A) :
  Permutation (insert_by le x l) (x :: l).
Proof.
  induction l as [|y r IH]; simpl.
  - apply Permutation_refl.
  - destruct (le x y).
    + apply Permutation_refl.
    + eapply perm_trans; [apply perm_skip, IH | apply perm_swap].
Qed.

Lemma sort_by_perm (l : list A) : Permutation (sort_by le l) l.
Proof.
  induction l as [|x r IH]; simpl.
  - constructor.
  - eapply perm_trans; [apply insert_by_perm | apply perm_skip, IH].
Qed.

Lemma sort_by_In (x : A) (l : list A) : In x (sort_by le l) <-> In x l.
Proof.
  split; apply Permutation_in;
    [apply sort_by_perm | apply Permutation_sym, sort_by_perm].
Qed.

Hypothesis le_total : forall a b, le a b = true \/ le b a = true.
Hypothesis le_trans :
  forall a b c, le a b = true -> le b c = true -> le a c = true.

Lemma insert_by_sorted (x : A) (l : list A) :
  StronglySorted (fun a b => le a b = true) l ->
  StronglySorted (fun a b => le a b = true) (insert_by le x l).
Proof.
  induction 1 as [|y r Hs IH Hall]; simpl.
  - repeat constructor.
  - destruct (le x y) eqn:E.
    + constructor; [constructor; assumption|].
      constructor; [assumption|].
      rewrite Forall_forall in *. intros z Hz. eauto.
    + constructor; [exact IH|].
      rewrite Forall_forall in *. intros z Hz.
      apply (Permutation_in _ (insert_by_perm x r)) in Hz.
      destruct Hz as [<-|Hz]; [|auto].
      destruct (le_total x y) as [H|H]; congruence.
Qed.

Lemma sort_by_sorted (l : list A) :
  StronglySorted (fun a b => le a b = true) (sort_by le l).
Proof.
  induction l as [|x r IH]; simpl.
  - constructor.
  - apply insert_by_sorted, IH.
Qed.

End Sorting.

(** Positions in a strongly sorted list respect the order. *)
Lemma StronglySorted_nth {A} (R : A -> A -> Prop) (l : list A) :
  StronglySorted R l ->
  forall i j a b, (i < j)%nat ->
    nth_error l i = Some a -> nth_error l j = Some b -> R a b.
Proof.
  induction 1 as [|x r Hs IH Hall]; intros i j a b Hij Ha Hb.
  - destruct i; discriminate.
  - destruct j as [|j]; [lia|]. simpl in Hb.
    destruct i as [|i]; simpl in Ha.
    + injection Ha as <-. rewrite Forall_forall in Hall.
      apply Hall. eapply nth_error_In; eassumption.
    + eapply IH; [|eassumption..]. lia.
Qed.

(** ** The persist path *)

Lemma find_existsb {A} (f : A -> bool) (l : list A) :
  existsb f l = match List.find f l with Some _ => true | None => false end.
Proof.
  induction l as [|x r IH]; simpl; [reflexivity|].
  destruct (f x); simpl; auto.
Qed.

Lemma truthy_Some (v : option string) :
  Js.truthy v = true -> exists s, v = Some s /\ s <> "".
Proof.
  destruct v as [s|]; simpl; [|discriminate].
  intros H. exists s. split; [reflexivity|].
  intros ->. discriminate.
Qed.

Lemma acceptable_paths (d : MessageData) :
  acceptable d = true ->
  Js.truthy (data_messageId d) = true /\ Js.truthy (data_wa_id d) = true
  /\ Js.truthy (data_fromNumber d) = true /\ Js.truthy (data_toNumber d) = true
  /\ exists ts, data_timestamp d = Js.Num ts.
Proof.
  unfold acceptable, Message.invalid_paths, Message.required, Message.number.
  destruct (Js.truthy (data_messageId d)); [|discriminate].
  destruct (Js.truthy (data_wa_id d)); [|discriminate].
  destruct (Message.in_enum _ _ _); [|discriminate].
  destruct (Js.truthy (data_fromNumber d)); [|discriminate].
  destruct (Js.truthy (data_toNumber d)); [|discriminate].
  destruct (data_timestamp d); [discriminate|].
  intros _. repeat split; eauto.
Qed.

Lemma acceptable_cast (d : MessageData) (now : Z) :
  acceptable d = true -> exists doc, Message.cast d now = Some doc.
Proof.
  intros H. apply acceptable_paths in H.
  destruct H as (H1 & H2 & H3 & H4 & ts & H5).
  apply truthy_Some in H1, H2, H3, H4.
  destruct H1 as (i & E1 & _), H2 as (x & E2 & _),
           H3 as (f & E3 & _), H4 as (t & E4 & _).
  unfold Message.cast. rewrite E1, E2, E3, E4, H5. eauto.
Qed.

(** [saveMessage] in one equation: nothing happens on a known
    [messageId] or on an object that fails validation, else the cast
    document is appended. *)
Lemma saveMessage_eq (data : MessageData) (w : World) :
  saveMessage data w =
  if known (data_messageId data) (docs w) || negb (acceptable data)
  then (false, w)
  else match Message.cast data (time w (reads w)) with
       | Some doc => (true, with_docs (snd (Date_now w)) (docs w ++ [doc]))
       | None => (false, w)
       end.
Proof.
  unfold saveMessage, bind, Message.findOne, Message.save, known, acceptable.
  pose proof (find_existsb (Message.by_messageId (data_messageId data))
                           (docs w)) as E.
  destruct (List.find _ (docs w)); rewrite E; simpl; [reflexivity|].
  destruct (Message.invalid_paths data); simpl; [|reflexivity].
  destruct (Message.cast data (time w (reads w))); reflexivity.
Qed.

Lemma strict_eq_true (a b : option string) :
  Js.strict_eq a b = true <-> a = b.
Proof.
  destruct a as [x|], b as [y|]; simpl; split; intros H;
    try discriminate; try reflexivity.
  - apply String.eqb_eq in H. congruence.
  - injection H as ->. apply String.eqb_refl.
Qed.

Lemma known_In (id : option string) (l : list Doc) :
  known id l = true <-> exists d, In d l /\ Some (messageId d) = id.
Proof.
  unfold known. rewrite existsb_exists.
  split; intros (d & Hd & H); exists d; split; auto;
    apply strict_eq_true; exact H.
Qed.

Lemma cast_messageId (data : MessageData) (now : Z) (d : Doc) :
  Message.cast data now = Some d -> data_messageId data = Some (messageId d).
Proof.
  unfold Message.cast.
  destruct (data_messageId data), (data_wa_id data), (data_fromNumber data),
    (data_toNumber data), (data_timestamp data); try discriminate.
  intros H. injection H as <-. reflexivity.
Qed.

(** What [saveMessage] does to the collection. *)
Lemma saveMessage_docs (data : MessageData) (w : World) :
  docs (exec (saveMessage data) w) = docs w
  \/ (known (data_messageId data) (docs w) = false
      /\ acceptable data = true
      /\ exists d, Message.cast data (time w (reads w)) = Some d
                   /\ docs (exec (saveMessage data) w) = docs w ++ [d]).
Proof.
  unfold exec. rewrite saveMessage_eq.
  destruct (known _ _) eqn:K; simpl; [left; reflexivity|].
  destruct (acceptable data) eqn:V; simpl; [|left; reflexivity].
  destruct (Message.cast data _) as [d|] eqn:C; simpl; [|left; reflexivity].
  right. repeat split; eauto.
Qed.

Lemma create_total (m : WebhookMessage) (v : Value) (bn : option string) :
  exists data, createMessageFromWebhook m v bn = Some data.
Proof.
  unfold createMessageFromWebhook.
  destruct (Js.truthy bn && Js.strict_eq (msg_from m) bn); eauto.
Qed.

Lemma processMessages_cons m r v bn data w :
  createMessageFromWebhook m v bn = Some data ->
  exec (processMessages (m :: r) v bn) w =
  exec (processMessages r v bn) (exec (saveMessage data) w).
Proof.
  intros E. unfold processMessages. rewrite exec_forEach_cons, E.
  rewrite exec_bind. reflexivity.
Qed.

(** Every document after a run of [processMessages] was there before or
    is the cast of the validated object built from one entry of the
    batch. *)
Lemma processMessages_In msgs v bn : forall w d,
  In d (docs (exec (processMessages msgs v bn) w)) ->
  In d (docs w)
  \/ exists m data now, In m msgs
       /\ createMessageFromWebhook m v bn = Some data
       /\ acceptable data = true
       /\ Message.cast data now = Some d.
Proof.
  induction msgs as [|m r IH]; intros w d Hd.
  - left. exact Hd.
  - destruct (create_total m v bn) as [data E].
    rewrite (processMessages_cons _ _ _ _ _ _ E) in Hd.
    apply IH in Hd. destruct Hd as [Hd|(m' & data' & now & Hm & E' & V & C)].
    + destruct (saveMessage_docs data w) as [S|(_ & V & d0 & C & S)];
        rewrite S in Hd.
      * left. exact Hd.
      * apply in_app_or in Hd. destruct Hd as [Hd|[<-|[]]]; [left; exact Hd|].
        right. exists m, data, (time w (reads w)). simpl. auto.
    + right. exists m', data', now. simpl. auto.
Qed.

(** ** Identity and direction of a record built from a webhook entry *)

Lemma getContactInfoFromWebhook_waId (from : option string)
      (cs : option (list Contact)) :
  let l := match cs with Some l => l | None => [] end in
  let waId := fst (getContactInfoFromWebhook from cs) in
  ((exists c, In c l /\ contact_wa_id c = from) -> waId = from)
  /\ ((forall c, In c l -> contact_wa_id c <> from) ->
      match l with
      | c :: _ => waId = contact_wa_id c
      | [] => waId = from
      end).
Proof.
  unfold getContactInfoFromWebhook.
  destruct cs as [[|c0 r]|]; simpl.
  - split; [reflexivity|]. reflexivity.
  - destruct (Js.strict_eq (contact_wa_id c0) from) eqn:E0; simpl.
    + apply strict_eq_true in E0. split; [auto|].
      intros H. exfalso. apply (H c0); auto.
    + destruct (List.find _ r) as [c|] eqn:F; simpl.
      * apply find_some in F. destruct F as [Hc Ec].
        apply strict_eq_true in Ec. split; [auto|].
        intros H. exfalso. apply (H c); auto.
      * split; [|reflexivity].
        intros (c & [<-|Hc] & Ec).
        -- apply strict_eq_true in Ec. congruence.
        -- apply (find_none _ _ F) in Hc. apply strict_eq_true in Ec.
           congruence.
  - split; reflexivity.
Qed.

(** The record cast from the object that [createMessageFromWebhook] builds
    for an entry: its key, its sender, its direction and identity, and its
    timestamp. *)
Lemma created_record m v bn data now d :
  createMessageFromWebhook m v bn = Some data ->
  acceptable data = true ->
  Message.cast data now = Some d ->
  msg_id m = Some (messageId d)
  /\ msg_from m = Some (fromNumber d)
  /\ resolved_direction bn v d
  /\ (isOutgoing d = true -> wa_id d = "business")
  /\ Js.mul (Js.parseInt (msg_timestamp m)) (Js.Num 1000)
     = Js.Num (timestamp d).
Proof.
  intros E V C. apply acceptable_paths in V.
  destruct V as (_ & _ & Vf & _ & _).
  unfold createMessageFromWebhook in E.
  destruct (Js.truthy bn && Js.strict_eq (msg_from m) bn) eqn:B;
    injection E as <-; unfold Message.cast in C; simpl in *.
  - apply andb_true_iff in B. destruct B as [_ B].
    apply strict_eq_true in B.
    destruct (msg_id m) as [i|]; [|discriminate].
    destruct (msg_from m) as [f|]; [|discriminate].
    unfold resolved_direction, first_contact, contact_list.
    destruct (contacts v) as [[|c0 r]|]; try discriminate.
    destruct (contact_wa_id c0) as [t|]; [|discriminate].
    destruct (Js.mul _ _) as [|ts]; [discriminate|].
    injection C as <-. simpl. repeat split; congruence.
  - pose proof (getContactInfoFromWebhook_waId (msg_from m) (contacts v)) as G.
    simpl in G.
    destruct (msg_id m) as [i|]; [|discriminate].
    destruct (fst (getContactInfoFromWebhook (msg_from m) (contacts v)))
      as [x|] eqn:W; [|discriminate].
    destruct (msg_from m) as [f|] eqn:F; [|discriminate].
    destruct bn as [b|] eqn:Bn.
    2:{ discriminate. }
    destruct (Js.mul _ _) as [|ts]; [discriminate|].
    injection C as <-. simpl.
    assert (Hfb : Some f <> Some b).
    { intros Hb. injection Hb as ->.
      rewrite Vf in B. simpl in B. rewrite String.eqb_refl in B.
      discriminate. }
    split; [reflexivity|]. split; [reflexivity|].
    split; [|split; [discriminate|reflexivity]].
    unfold resolved_direction, inbound_identity, contact_list. simpl.
    split; [intros Hb; contradiction|].
    intros _. split; [reflexivity|]. destruct G as [G1 G2]. split.
    + intros H. specialize (G1 H). congruence.
    + intros H. specialize (G2 H).
      destruct (match contacts v with Some l => l | None => [] end);
        congruence.
Qed.

(** ** Status updates *)

Lemma update_first_none (filter : Doc -> bool) (f : Doc -> Doc) (l : list Doc) :
  (forall x, In x l -> filter x = false) ->
  Message.update_first filter f l = (l, 0%nat).
Proof.
  induction l as [|x r IH]; intros H; simpl; [reflexivity|].
  rewrite (H x (or_introl eq_refl)).
  rewrite IH; [reflexivity|]. intros y Hy. apply H. right. exact Hy.
Qed.

Lemma update_first_split (filter : Doc -> bool) (f : Doc -> Doc) l1 d l2 :
  (forall x, In x l1 -> filter x = false) ->
  filter d = true ->
  Message.update_first filter f (l1 ++ d :: l2) = (l1 ++ f d :: l2, 1%nat).
Proof.
  induction l1 as [|x r IH]; intros H Hd; simpl.
  - rewrite Hd. reflexivity.
  - rewrite (H x (or_introl eq_refl)).
    rewrite IH; [reflexivity| |exact Hd]. intros y Hy. apply H. right. exact Hy.
Qed.

Lemma update_first_Forall2 (R : Doc -> Doc -> Prop) filter f (l : list Doc) :
  (forall d, R d d) -> (forall d, R d (f d)) ->
  Forall2 R l (fst (Message.update_first filter f l)).
Proof.
  intros Hrefl Hf. induction l as [|x r IH]; simpl; [constructor|].
  destruct (filter x); simpl.
  - constructor; [apply Hf|]. clear IH. induction r; constructor; auto.
  - destruct (Message.update_first filter f r). simpl in *.
    constructor; auto.
Qed.

Lemma updateMessageStatus_docs (id s : string) (w : World) :
  docs (exec (updateMessageStatus id s) w) =
  fst (Message.update_first (Message.by_messageId (Some id))
                            (Message.set_status s (time w (reads w)))
                            (docs w)).
Proof.
  unfold exec, updateMessageStatus, bind, Date_now, Message.updateOne. simpl.
  destruct (Message.update_first _ _ (docs w)). reflexivity.
Qed.

Lemma same_but_status_refl (d : Doc) : same_but_status d d.
Proof. unfold same_but_status. repeat split. Qed.

Lemma same_but_status_trans (a b c : Doc) :
  same_but_status a b -> same_but_status b c -> same_but_status a c.
Proof.
  unfold same_but_status.
  intros (A1 & A2 & A3 & A4 & A5 & A6 & A7 & A8 & A9 & A10)
         (B1 & B2 & B3 & B4 & B5 & B6 & B7 & B8 & B9 & B10).
  repeat split; congruence.
Qed.

Lemma same_but_status_set (s : string) (now : Z) (d : Doc) :
  same_but_status d (Message.set_status s now d).
Proof. unfold same_but_status. repeat split. Qed.

Lemma Forall2_trans {A} (R : A -> A -> Prop) :
  (forall a b c, R a b -> R b c -> R a c) ->
  forall l1 l2 l3, Forall2 R l1 l2 -> Forall2 R l2 l3 -> Forall2 R l1 l3.
Proof.
  intros Ht l1 l2 l3 H12. revert l3.
  induction H12; intros l3 H23; inversion H23; subst; constructor; eauto.
Qed.

Lemma Forall2_refl {A} (R : A -> A -> Prop) :
  (forall a, R a a) -> forall l, Forall2 R l l.
Proof. intros Hr l. induction l; constructor; auto. Qed.

Lemma Forall2_In_r {A} (R : A -> A -> Prop) (l1 l2 : list A) (y : A) :
  Forall2 R l1 l2 -> In y l2 -> exists x, In x l1 /\ R x y.
Proof.
  induction 1 as [|a b r1 r2 Hab H IH]; intros Hy; [destruct Hy|].
  destruct Hy as [<-|Hy].
  - exists a. simpl. auto.
  - destruct (IH Hy) as (x & Hx & Hxy). exists x. simpl. auto.
Qed.

Lemma processStatusUpdates_cons st r w :
  exec (processStatusUpdates (st :: r)) w =
  exec (processStatusUpdates r)
       (match Js.or (st_id st) (st_meta_msg_id st) with
        | Some id =>
            if Js.truthy (Js.or (st_id st) (st_meta_msg_id st))
            then exec (updateMessageStatus id (st_status st)) w
            else w
        | None => w
        end).
Proof.
  unfold processStatusUpdates. rewrite exec_forEach_cons.
  destruct (Js.or (st_id st) (st_meta_msg_id st)) as [id|]; [|reflexivity].
  destruct (Js.truthy (Some id)); reflexivity.
Qed.

(** A run of status updates relates the collection to itself document by
    document, for any relation that relates a document to itself and to
    its update. *)
Lemma processStatusUpdates_Forall2 (R : Doc -> Doc -> Prop) :
  (forall d, R d d) -> (forall a b c, R a b -> R b c -> R a c) ->
  (forall s now d, R d (Message.set_status s now d)) ->
  forall sts w,
    Forall2 R (docs w) (docs (exec (processStatusUpdates sts) w)).
Proof.
  intros Hr Ht Hs sts. induction sts as [|st r IH]; intros w.
  - apply Forall2_refl, Hr.
  - rewrite processStatusUpdates_cons.
    eapply Forall2_trans; [exact Ht| |apply IH].
    destruct (Js.or _ _) as [id|]; [|apply Forall2_refl, Hr].
    destruct (Js.truthy _); [|apply Forall2_refl, Hr].
    rewrite updateMessageStatus_docs.
    apply update_first_Forall2; auto.
Qed.

Lemma processStatusUpdates_frame sts w :
  Forall2 same_but_status (docs w) (docs (exec (processStatusUpdates sts) w)).
Proof.
  apply processStatusUpdates_Forall2.
  - apply same_but_status_refl.
  - apply same_but_status_trans.
  - apply same_but_status_set.
Qed.

Lemma Forall2_map_eq {A B} (f : A -> B) (l1 l2 : list A) :
  Forall2 (fun a b => f a = f b) l1 l2 -> map f l1 = map f l2.
Proof. induction 1; simpl; congruence. Qed.

Lemma processStatusUpdates_ids sts w :
  ids (docs (exec (processStatusUpdates sts) w)) = ids (docs w).
Proof.
  symmetry. apply Forall2_map_eq.
  apply processStatusUpdates_Forall2; try congruence. reflexivity.
Qed.

(** ** One webhook document *)

Lemma extractWebhookData_pure (data : WebhookData) (w : World) :
  exec (extractWebhookData data) w = w.
Proof.
  unfold extractWebhookData.
  destruct (metaData data) as [[[[|e0 ?]|]]|]; try reflexivity.
  destruct (changes e0) as [[|[[v|]] ?]|]; reflexivity.
Qed.

Lemma processWebhookFile_skip (data : WebhookData) (w : World) :
  eval (extractWebhookData data) w = None ->
  exec (processWebhookFile (Some data)) w = w.
Proof.
  intros E. unfold processWebhookFile.
  rewrite exec_bind, E, extractWebhookData_pure. reflexivity.
Qed.

(** A document with the expected structure: its messages are processed,
    then its status updates. *)
Lemma processWebhookFile_batch (data : WebhookData) (info : WebhookInfo) w :
  eval (extractWebhookData data) w = Some info ->
  exec (processWebhookFile (Some data)) w =
  exec (processStatusUpdates (status_entries info))
       (exec (processMessages (entries info) (info_value info)
                              (info_businessNumber info)) w).
Proof.
  intros E. unfold processWebhookFile.
  rewrite exec_bind, E, extractWebhookData_pure, exec_bind.
  unfold entries, status_entries.
  destruct (info_messages info) as [[|m r]|],
           (info_statuses info) as [[|st sts]|]; reflexivity.
Qed.

(** Every document after the ingestion of a batch is a document of the
    collection before it, up to [status] and [updatedAt], or the cast of
    the validated object built from one message entry, up to the same. *)
Lemma processWebhookFile_In (data : WebhookData) (info : WebhookInfo) w d :
  eval (extractWebhookData data) w = Some info ->
  In d (docs (exec (processWebhookFile (Some data)) w)) ->
  exists d1, same_but_status d1 d
    /\ (In d1 (docs w)
        \/ exists m entry_data now, In m (entries info)
             /\ createMessageFromWebhook m (info_value info)
                                         (info_businessNumber info)
                = Some entry_data
             /\ acceptable entry_data = true
             /\ Message.cast entry_data now = Some d1).
Proof.
  intros E Hd. rewrite (processWebhookFile_batch _ _ _ E) in Hd.
  eapply Forall2_In_r in Hd; [|apply processStatusUpdates_frame].
  destruct Hd as (d1 & Hd1 & Hs). exists d1. split; [exact Hs|].
  apply processMessages_In in Hd1. exact Hd1.
Qed.

Lemma resolved_direction_frame bn v d1 d :
  same_but_status d1 d -> resolved_direction bn v d1 ->
  resolved_direction bn v d.
Proof.
  unfold same_but_status, resolved_direction, inbound_identity.
  destruct d1, d; simpl.
  intros (? & ? & ? & ? & ? & ? & ? & ? & ? & ?); subst. auto.
Qed.

(** ** Direction resolution *)

(** C1 (as amended). Every record that the ingestion of a batch stores
    comes from a message entry with the same [id] and [from], and: when
    the sender is the business address, the record has [isOutgoing = true],
    the fixed identity ["business"] as [wa_id], and the first contact's
    address as [toNumber]; for any other sender, it has [isOutgoing =
    false] and as [wa_id] the matched contact's address (the sender), or
    the first contact's address when no contact matches, or the sender
    when the batch has no contact.  Records already in the collection keep
    every path but [status] and [updatedAt]. *)
Theorem direction_resolution (w : World) (data : WebhookData)
        (info : WebhookInfo) (d : Doc) :
  eval (extractWebhookData data) w = Some info ->
  In d (docs (exec (processWebhookFile (Some data)) w)) ->
  (exists d0, In d0 (docs w) /\ same_but_status d0 d)
  \/ (exists m, In m (entries info)
         /\ msg_id m = Some (messageId d)
         /\ msg_from m = Some (fromNumber d)
         /\ resolved_direction (info_businessNumber info) (info_value info) d).
Proof.
  intros E Hd.
  destruct (processWebhookFile_In _ _ _ _ E Hd)
    as (d1 & Hs & [H|(m & entry_data & now & Hm & Hc & Hv & Hcast)]).
  - left. exists d1. auto.
  - right. exists m.
    destruct (created_record _ _ _ _ _ _ Hc Hv Hcast) as (Hi & Hf & Hr & _).
    pose proof (resolved_direction_frame _ _ _ _ Hs Hr) as Hr'.
    destruct Hs as (Si & _ & _ & _ & Sf & _).
    rewrite Si, Sf. auto.
Qed.

Lemma direction_resolution_witness :
  exists d,
    In d (docs (exec (processWebhookFile (Some (document outbound_batch)))
                     (world [] None)))
    /\ isOutgoing d = true /\ wa_id d = "business" /\ toNumber d = "+1111".
Proof.
  set (w := world [] None).
  set (d := mkDoc "m2" "business" "hello" "text" "+9999" "+1111" "You"
                  1001000 true "sent" 1700000000000 1700000000000).
  assert (Hd : In d (docs (exec (processWebhookFile
                                   (Some (document outbound_batch))) w))).
  { left. reflexivity. }
  exists d. split; [exact Hd|].
  destruct (direction_resolution w (document outbound_batch)
              (mkInfo outbound_batch (Some "+9999") (Some [m2]) None) d
              eq_refl Hd)
    as [(d0 & [] & _)|(m & _ & _ & _ & Hr & _)].
  destruct (Hr eq_refl) as (Ho & Hw & Ht).
  repeat split; assumption.
Defined.

(** C1 (as stated) fails: the record of a message sent by the business
    carries ["business"] as its identity, not the first contact's
    address. *)
Lemma direction_resolution_counterexample :
  ~ (forall d,
        In d (docs (exec (processWebhookFile (Some (document outbound_batch)))
                         (world [] None))) ->
        claimed_direction (Some "+9999") outbound_batch d).
Proof.
  intros H.
  specialize (H (mkDoc "m2" "business" "hello" "text" "+9999" "+1111" "You"
                       1001000 true "sent" 1700000000000 1700000000000)
                (or_introl eq_refl)).
  destruct H as [H _]. destruct (H eq_refl) as [_ Hc]. discriminate Hc.
Qed.

(** ** Timestamps *)




(** ** Status update is a mutation *)

(** C3. A status update for a [messageId] with a matching record changes
    only the [status] and [updatedAt] of that record: every other path of
    it, every other record and the number of records stay as they are.  A
    status update for a [messageId] with no matching record leaves the
    collection unchanged; the run of a whole list of status entries always
    completes, keeps the number of records and changes nothing when none
    of its entries matches. *)
Theorem status_update_is_mutation (w : World) :
  (forall id s,
      List.length (docs (exec (updateMessageStatus id s) w))
      = List.length (docs w))
  /\ (forall id s before d after,
        docs w = before ++ d :: after ->
        messageId d = id ->
        (forall x, In x before -> messageId x <> id) ->
        exists d',
          docs (exec (updateMessageStatus id s) w) = before ++ d' :: after
          /\ status d' = s /\ updatedAt d' = time w (reads w)
          /\ same_but_status d d')
  /\ (forall id s,
        (forall x, In x (docs w) -> messageId x <> id) ->
        docs (exec (updateMessageStatus id s) w) = docs w)
  /\ (forall sts,
        List.length (docs (exec (processStatusUpdates sts) w))
        = List.length (docs w)
        /\ ((forall st id x,
                In st sts -> Js.or (st_id st) (st_meta_msg_id st) = Some id ->
                In x (docs w) -> messageId x <> id) ->
            docs (exec (processStatusUpdates sts) w) = docs w)).
Proof.
  assert (Hno : forall id x, messageId x <> id ->
                  Message.by_messageId (Some id) x = false).
  { intros id x Hx. destruct (Message.by_messageId (Some id) x) eqn:E; auto.
    unfold Message.by_messageId in E. apply strict_eq_true in E. congruence. }
  repeat split.
  - intros id s. rewrite updateMessageStatus_docs.
    symmetry. eapply Forall2_length.
    apply update_first_Forall2 with (R := fun _ _ => True); auto.
  - intros id s before d after Hw Hd Hbefore.
    exists (Message.set_status s (time w (reads w)) d).
    rewrite updateMessageStatus_docs, Hw.
    rewrite update_first_split.
    + simpl. repeat split.
    + intros x Hx. apply Hno, Hbefore, Hx.
    + unfold Message.by_messageId. apply strict_eq_true. congruence.
  - intros id s Hnone. rewrite updateMessageStatus_docs.
    rewrite update_first_none; [reflexivity|].
    intros x Hx. apply Hno, Hnone, Hx.
  - symmetry. eapply Forall2_length.
    apply processStatusUpdates_Forall2 with (R := fun _ _ => True); auto.
  - revert w. induction sts as [|st r IH]; intros w Hnone; [reflexivity|].
    rewrite processStatusUpdates_cons.
    assert (Hstep :
      docs (match Js.or (st_id st) (st_meta_msg_id st) with
            | Some id =>
                if Js.truthy (Js.or (st_id st) (st_meta_msg_id st))
                then exec (updateMessageStatus id (st_status st)) w
                else w
            | None => w
            end) = docs w).
    { destruct (Js.or _ _) as [id|] eqn:E; [|reflexivity].
      destruct (Js.truthy _); [|reflexivity].
      rewrite updateMessageStatus_docs, update_first_none; [reflexivity|].
      intros x Hx. apply Hno. eapply Hnone; [left; reflexivity|exact E|exact Hx]. }
    rewrite IH; [exact Hstep|].
    intros st' id x Hst E Hx. rewrite Hstep in Hx.
    eapply Hnone; [right; exact Hst|exact E|exact Hx].
Qed.

Lemma status_update_is_mutation_witness :
  (exists d',
      docs (exec (updateMessageStatus "t2" "read") (world [tie_a; tie_b] None))
      = [tie_a; d']
      /\ status d' = "read" /\ same_but_status tie_b d')
  /\ docs (exec (updateMessageStatus "t9" "read") (world [tie_a; tie_b] None))
     = [tie_a; tie_b].
Proof.
  destruct (status_update_is_mutation (world [tie_a; tie_b] None))
    as (_ & Hhit & Hmiss & _).
  split.
  - destruct (Hhit "t2" "read" [tie_a] tie_b [] eq_refl eq_refl)
      as (d' & E & Hs & _ & Hf).
    + intros x [<-|[]]. discriminate.
    + exists d'. auto.
  - apply Hmiss. intros x [<-|[<-|[]]]; discriminate.
Defined.

(** ** Scenario: one inbound message *)

(** C7. Ingesting into an empty store the document with the one message
    [m1] from ["+1111"], the contact Alice and the business address
    ["+9999"] (from the document's metadata or from the environment)
    stores exactly one record: [messageId = "m1"], [wa_id = "+1111"],
    [isOutgoing = false], [contactName = "Alice"], [timestamp = 1000000]
    and [status = "received"]. *)
Theorem scenario_inbound_message (w : World) (display : option string) :
  docs w = [] ->
  Js.or display (BUSINESS_PHONE_NUMBER w) = Some "+9999" ->
  docs (exec (processWebhookFile (Some (document (scenario display)))) w) =
  [ {| messageId := "m1"; wa_id := "+1111"; text := "hi";
       messageType := "text"; fromNumber := "+1111"; toNumber := "+9999";
       contactName := "Alice"; timestamp := 1000000; isOutgoing := false;
       status := "received";
       createdAt := time w (reads w); updatedAt := time w (reads w) |} ].
Proof.
  intros Hempty Hbn.
  unfold processWebhookFile, document, scenario, extractWebhookData.
  cbn -[Js.or saveMessage].
  unfold exec, bind, process_env_BUSINESS_PHONE_NUMBER, ret, processMessages.
  cbn -[Js.or saveMessage]. rewrite Hbn.
  cbn -[saveMessage]. unfold bind.
  rewrite saveMessage_eq, Hempty. reflexivity.
Qed.

Lemma scenario_inbound_message_witness :
  docs (exec (processWebhookFile (Some (document (scenario (Some "+9999")))))
             (world [] None)) =
  [ mkDoc "m1" "+1111" "hi" "text" "+1111" "+9999" "Alice" 1000000 false
          "received" 1700000000000 1700000000000 ].
Proof.
  apply (scenario_inbound_message (world [] None) (Some "+9999"));
    reflexivity.
Defined.

(** ** The outgoing message composer *)

Lemma validateMessageInput_valid (text waId : option string) :
  isValid (validateMessageInput text waId) = true <->
  exists t i, text = Some t /\ Js.trim t <> "" /\ waId = Some i /\ i <> "".
Proof.
  unfold validateMessageInput. split.
  - destruct text as [t|]; simpl; [|discriminate].
    destruct (t =? "") eqn:Et; simpl; [discriminate|].
    destruct (Js.trim t =? "") eqn:Er; simpl; [discriminate|].
    destruct waId as [i|]; simpl; [|discriminate].
    destruct (i =? "") eqn:Ei; simpl; [discriminate|]. intros _.
    exists t, i. apply String.eqb_neq in Er, Ei. auto.
  - intros (t & i & -> & Ht & -> & Hi). simpl.
    apply String.eqb_neq in Hi. rewrite Hi.
    assert (Et : (t =? "") = false).
    { apply String.eqb_neq. intros ->. apply Ht. reflexivity. }
    apply String.eqb_neq in Ht. rewrite Et, Ht. reflexivity.
Qed.

Lemma or_default_truthy (a : option string) (d : string) :
  d <> "" -> Js.truthy (Some (Js.or_default a d)) = true.
Proof.
  intros Hd. apply String.eqb_neq in Hd. unfold Js.or_default.
  destruct a as [s|]; simpl; [|rewrite Hd; reflexivity].
  destruct (s =? "") eqn:E; simpl; [rewrite Hd|rewrite E]; reflexivity.
Qed.

(** [sendMessage] on an input that passes validation: the composed
    document is appended unless its [messageId] is already known. *)
Lemma sendMessage_valid (w : World) (i t : string) (name : option string) :
  Js.trim t <> "" -> i <> "" ->
  let d := mkDoc (next_messageId w) "business" (Js.trim t) "text"
                 (Js.or_default (BUSINESS_PHONE_NUMBER w) "+1234567890") i
                 "You" (time w (S (reads w))) true "sent"
                 (time w (S (S (reads w)))) (time w (S (S (reads w)))) in
  if known (Some (next_messageId w)) (docs w)
  then eval (sendMessage (Some i) (Some t) name) w
       = mkResponse 400 false
                    (Failure (Literal "Message with this ID already exists"))
       /\ docs (exec (sendMessage (Some i) (Some t) name) w) = docs w
  else eval (sendMessage (Some i) (Some t) name) w
       = mkResponse 200 true (Sent d)
       /\ docs (exec (sendMessage (Some i) (Some t) name) w) = docs w ++ [d].
Proof.
  intros Ht Hi d.
  assert (V : isValid (validateMessageInput (Some t) (Some i)) = true).
  { apply validateMessageInput_valid. eauto 6. }
  pose proof (or_default_truthy (BUSINESS_PHONE_NUMBER w) "+1234567890") as Hb.
  assert (Hi' : (i =? "") = false) by (apply String.eqb_neq; exact Hi).
  unfold eval, exec, sendMessage. rewrite V. simpl.
  unfold bind, process_env_BUSINESS_PHONE_NUMBER, getContactName,
    createOutgoingMessage, Message.findOne, Message.save, bind, ret,
    Date_now, Math_random36, Message.invalid_paths, Message.required,
    Message.in_enum, Message.number, known. simpl.
  unfold Js.truthy in Hb. rewrite Hb by discriminate. rewrite Hi'. simpl.
  fold (next_messageId w).
  destruct (existsb _ (docs w)); simpl; split; reflexivity.
Qed.

(** C8 (as amended). [sendMessage] answers a 400 [{success: false, error}]
    and leaves the store as it is whenever the text is absent, empty or
    only white space, or the conversation id is absent; for every text
    that is not empty once trimmed and every present conversation id,
    validation passes, and a record with [isOutgoing = true],
    [status = "sent"] and [contactName = "You"] is persisted and returned
    provided the generated [messageId] is not already stored; when it is,
    the answer is a 400 ['Message with this ID already exists'] and
    nothing is stored. *)
Theorem sendMessage_contract (w : World) (waId text name : option string) :
  (Js.truthy text = false
   \/ (exists t, text = Some t /\ Js.trim t = "")
   \/ Js.truthy waId = false ->
   isValid (validateMessageInput text waId) = false
   /\ exists reason,
       (reason = "Message text is required" \/ reason = "wa_id is required")
       /\ sendMessage waId text name w
          = (mkResponse 400 false (Failure (Literal reason)), w))
  /\ (forall t i,
        text = Some t -> Js.trim t <> "" -> waId = Some i -> i <> "" ->
        isValid (validateMessageInput text waId) = true
        /\ (known (Some (next_messageId w)) (docs w) = false ->
            exists d,
              eval (sendMessage waId text name) w
              = mkResponse 200 true (Sent d)
              /\ docs (exec (sendMessage waId text name) w) = docs w ++ [d]
              /\ isOutgoing d = true /\ status d = "sent"
              /\ contactName d = "You")
        /\ (known (Some (next_messageId w)) (docs w) = true ->
            eval (sendMessage waId text name) w
            = mkResponse 400 false
                         (Failure
                            (Literal "Message with this ID already exists"))
            /\ docs (exec (sendMessage waId text name) w) = docs w)).
Proof.
  split.
  - intros H.
    assert (V : isValid (validateMessageInput text waId) = false).
    { destruct (isValid _) eqn:V; [|reflexivity].
      apply validateMessageInput_valid in V.
      destruct V as (t & i & -> & Ht & -> & Hi).
      destruct H as [H|[(t' & E & H)|H]]; simpl in H.
      - destruct (t =? "") eqn:Et; [|discriminate].
        apply String.eqb_eq in Et. subst t. exfalso. apply Ht. reflexivity.
      - injection E as <-. contradiction.
      - apply String.eqb_neq in Hi. rewrite Hi in H. discriminate. }
    split; [exact V|].
    unfold sendMessage. rewrite V. simpl.
    unfold validateMessageInput in *.
    destruct (negb (Js.truthy text) || _); simpl.
    + eexists. split; [left|]; reflexivity.
    + destruct (negb (Js.truthy waId)); simpl; [|discriminate].
      eexists. split; [right|]; reflexivity.
  - intros t i -> Ht -> Hi. split; [|split].
    + apply validateMessageInput_valid. eauto 6.
    + intros K. pose proof (sendMessage_valid w i t name Ht Hi) as S.
      simpl in S. rewrite K in S. destruct S as [S1 S2].
      eexists. split; [exact S1|]. split; [exact S2|].
      simpl. auto.
    + intros K. pose proof (sendMessage_valid w i t name Ht Hi) as S.
      simpl in S. rewrite K in S. exact S.
Qed.

Lemma sendMessage_contract_witness :
  (exists reason,
      sendMessage (Some "+1111") (Some "   ") None (world [] None)
      = (mkResponse 400 false (Failure (Literal reason)), world [] None))
  /\ (exists d,
        docs (exec (sendMessage (Some "+1111") (Some " hello ") None)
                   (world [] None)) = [d]
        /\ isOutgoing d = true /\ status d = "sent" /\ contactName d = "You")
  /\ docs (exec (sendMessage (Some "+1111") (Some "hello") None)
               (world [collided] None)) = [collided].
Proof.
  destruct (sendMessage_contract (world [] None) (Some "+1111")
              (Some "   ") None) as [Hreject _].
  destruct (sendMessage_contract (world [] None) (Some "+1111")
              (Some " hello ") None) as [_ Haccept].
  destruct (sendMessage_contract (world [collided] None) (Some "+1111")
              (Some "hello") None) as [_ Hcollide].
  split; [|split].
  - destruct Hreject as (_ & reason & _ & E).
    + right. left. exists "   ". split; reflexivity.
    + exists reason. exact E.
  - destruct (Haccept " hello " "+1111" eq_refl) as (_ & H & _);
      [discriminate|reflexivity|discriminate|].
    destruct (H eq_refl) as (d & _ & Hd & Ho & Hs & Hc).
    exists d. auto.
  - destruct (Hcollide "hello" "+1111" eq_refl) as (_ & _ & H);
      [discriminate|reflexivity|discriminate|].
    destruct (H eq_refl) as [_ Hd]. exact Hd.
Defined.

(** C8 (as stated) fails: when the collection already holds the
    [messageId] that the call generates, a valid text for a present
    conversation id is not persisted. *)
Lemma sendMessage_contract_counterexample :
  ~ claimed_send_persists (world [collided] None) "+1111" "hello" None.
Proof.
  intros (_ & d & Hd & _).
  assert (E : docs (exec (sendMessage (Some "+1111") (Some "hello") None)
                         (world [collided] None)) = [collided])
    by reflexivity.
  rewrite E in Hd. discriminate Hd.
Qed.

(** ** The identity of outgoing records *)

Lemma sendMessage_docs (w : World) (waId text name : option string) :
  docs (exec (sendMessage waId text name) w) = docs w
  \/ exists d,
      docs (exec (sendMessage waId text name) w) = docs w ++ [d]
      /\ isOutgoing d = true /\ wa_id d = "business".
Proof.
  destruct (isValid (validateMessageInput text waId)) eqn:V.
  - apply validateMessageInput_valid in V.
    destruct V as (t & i & -> & Ht & -> & Hi).
    pose proof (sendMessage_valid w i t name Ht Hi) as S. simpl in S.
    destruct (known _ (docs w)); destruct S as [_ S].
    + left. exact S.
    + right. eexists. split; [exact S|]. split; reflexivity.
  - left. unfold exec, sendMessage. rewrite V. reflexivity.
Qed.

(** C9. Every record written with [isOutgoing = true] stores the fixed
    string ["business"] as its [wa_id]: the object built from a webhook
    entry of the business and the object built by the composer both do,
    so a collection where all outgoing records do keeps that property
    through ingestion and through [sendMessage]; such a record belongs to
    the conversation of an id other than ["business"] only through its
    [toNumber]. *)
Theorem outgoing_identity_is_business :
  (forall m v bn entry_data,
      createMessageFromWebhook m v bn = Some entry_data ->
      data_isOutgoing entry_data = true ->
      data_wa_id entry_data = Some "business")
  /\ (forall waId text businessPhone contactName w,
        let composed :=
          eval (createOutgoingMessage waId text businessPhone contactName) w in
        data_isOutgoing composed = true
        /\ data_wa_id composed = Some "business")
  /\ (forall w,
        (forall d, In d (docs w) -> isOutgoing d = true ->
                   wa_id d = "business") ->
        (forall file d,
            In d (docs (exec (processWebhookFile file) w)) ->
            isOutgoing d = true -> wa_id d = "business")
        /\ (forall waId text name d,
              In d (docs (exec (sendMessage waId text name) w)) ->
              isOutgoing d = true -> wa_id d = "business"))
  /\ (forall d waId,
        isOutgoing d = true -> wa_id d = "business" -> waId <> "business" ->
        in_conversation waId d = true -> toNumber d = waId).
Proof.
  split; [|split; [|split]].
  - intros m v bn entry_data E Ho. unfold createMessageFromWebhook in E.
    destruct (Js.truthy bn && Js.strict_eq (msg_from m) bn);
      injection E as <-; [reflexivity|discriminate].
  - intros. split; reflexivity.
  - intros w Hw. split.
    + intros [data|] d Hd Ho; [|apply Hw; assumption].
      destruct (eval (extractWebhookData data) w) as [info|] eqn:E.
      * destruct (processWebhookFile_In _ _ _ _ E Hd)
          as (d1 & Hs & [H|(m & entry_data & now & Hm & Hc & Hv & Hcast)]).
        -- destruct Hs as (_ & Sw & _ & _ & _ & _ & _ & _ & So & _).
           rewrite Sw. apply Hw; [exact H|congruence].
        -- destruct (created_record _ _ _ _ _ _ Hc Hv Hcast)
             as (_ & _ & _ & Hb & _).
           destruct Hs as (_ & Sw & _ & _ & _ & _ & _ & _ & So & _).
           rewrite Sw. apply Hb. congruence.
      * rewrite (processWebhookFile_skip _ _ E) in Hd. apply Hw; assumption.
    + intros waId text name d Hd Ho.
      destruct (sendMessage_docs w waId text name) as [S|(d' & S & _ & Hb)];
        rewrite S in Hd.
      * apply Hw; assumption.
      * apply in_app_or in Hd. destruct Hd as [Hd|[<-|[]]]; auto.
  - intros d waId Ho Hb Hne H. unfold in_conversation in H.
    apply orb_true_iff in H. destruct H as [H|H]; apply String.eqb_eq in H.
    + congruence.
    + exact H.
Qed.

Lemma outgoing_identity_is_business_witness :
  Forall (fun d => wa_id d = "business" /\ toNumber d = "+1111")
         (docs (exec (sendMessage (Some "+1111") (Some "hello") None)
                     (exec (processWebhookFile
                              (Some (document outbound_batch)))
                           (world [] None)))).
Proof.
  destruct outgoing_identity_is_business as (_ & _ & Hinv & Hto).
  apply Forall_forall. intros d Hd.
  assert (Ho : isOutgoing d = true).
  { destruct Hd as [<-|[<-|[]]]; reflexivity. }
  assert (Hb : wa_id d = "business").
  { destruct (Hinv (world [] None)) as [Hfile _]; [intros ? []|].
    destruct (Hinv (exec (processWebhookFile (Some (document outbound_batch)))
                         (world [] None))) as [_ Hsend].
    - intros d0 H0. exact (Hfile _ d0 H0).
    - exact (Hsend _ _ _ d Hd Ho). }
  split; [exact Hb|].
  apply Hto; [exact Ho|exact Hb|discriminate|].
  destruct Hd as [<-|[<-|[]]]; reflexivity.
Defined.

(** ** Listing the messages of a conversation *)

Lemma in_conversation_true (waId : string) (d : Doc) :
  in_conversation waId d = true <-> wa_id d = waId \/ toNumber d = waId.
Proof.
  unfold in_conversation. rewrite orb_true_iff, !String.eqb_eq. tauto.
Qed.

Lemma timestamp_asc_sorted (l : list Doc) :
  StronglySorted (fun a b => (timestamp a <= timestamp b)%Z)
                 (sort_by Message.timestamp_asc l).
Proof.
  assert (H : StronglySorted (fun a b => Message.timestamp_asc a b = true)
                             (sort_by Message.timestamp_asc l)).
  { apply sort_by_sorted; unfold Message.timestamp_asc.
    - intros a b. rewrite !Z.leb_le. lia.
    - intros a b c. rewrite !Z.leb_le. lia. }
  induction H as [|x r Hs IH Hall]; constructor; [exact IH|].
  eapply Forall_impl; [|exact Hall].
  intros a Ha. apply Z.leb_le. exact Ha.
Qed.

Lemma sorted_chronological (ms : list Doc) :
  StronglySorted (fun a b => (timestamp a <= timestamp b)%Z) ms ->
  chronological ms.
Proof.
  intros Hs i j a b Ha Hb. split.
  - intros Hij. exact (StronglySorted_nth _ _ Hs i j a b Hij Ha Hb).
  - intros Hlt. destruct (Nat.lt_trichotomy i j) as [H|[H|H]]; [exact H| |].
    + subst j. rewrite Ha in Hb. injection Hb as <-.
      apply Z.lt_irrefl in Hlt. contradiction.
    + pose proof (StronglySorted_nth _ _ Hs j i b a H Hb Ha) as Hle.
      simpl in Hle. exfalso. apply (Z.lt_irrefl (timestamp a)).
      eapply Z.lt_le_trans; eassumption.
Qed.

(** C6 (as amended). For a conversation id, [getMessages] answers with
    exactly the stored records whose [wa_id] or [toNumber] is that id,
    sorted by ascending timestamp: of two messages of the result, one that
    precedes the other has a timestamp that is not greater, and one with a
    smaller timestamp precedes the other (messages with equal timestamps
    come in either order); an id with no matching record yields the empty
    list in a success answer. *)
Theorem getMessages_chronological (w : World) (waId : string) :
  waId <> "" ->
  exists ms,
    getMessages (Some waId) w = (mkResponse 200 true (Messages ms), w)
    /\ Permutation ms (filter (in_conversation waId) (docs w))
    /\ (forall d, In d ms <->
                  In d (docs w) /\ (wa_id d = waId \/ toNumber d = waId))
    /\ chronological ms
    /\ ((forall d, In d (docs w) -> wa_id d <> waId /\ toNumber d <> waId) ->
        ms = []).
Proof.
  intros Hne.
  exists (sort_by Message.timestamp_asc (filter (in_conversation waId) (docs w))).
  split; [|split; [|split; [|split]]].
  - unfold getMessages. simpl.
    apply String.eqb_neq in Hne. rewrite Hne. reflexivity.
  - apply sort_by_perm.
  - intros d. rewrite sort_by_In, filter_In, in_conversation_true. tauto.
  - apply sorted_chronological, timestamp_asc_sorted.
  - intros Hnone.
    assert (E : filter (in_conversation waId) (docs w) = []).
    { destruct (filter _ (docs w)) as [|d r] eqn:F; [reflexivity|].
      assert (Hd : In d (filter (in_conversation waId) (docs w)))
        by (rewrite F; left; reflexivity).
      apply filter_In in Hd. destruct Hd as [Hd Hc].
      apply in_conversation_true in Hc. destruct (Hnone d Hd). tauto. }
    rewrite E. reflexivity.
Qed.

Lemma getMessages_chronological_witness :
  messages_of (eval (getMessages (Some "+1111")) (world [tie_a; tie_b] None))
  = [tie_a; tie_b]
  /\ chronological [tie_a; tie_b].
Proof.
  destruct (getMessages_chronological (world [tie_a; tie_b] None) "+1111")
    as (ms & E & _ & _ & Hc & _); [discriminate|].
  assert (Ems : ms = [tie_a; tie_b]).
  { unfold getMessages in E. simpl in E. injection E as <-. reflexivity. }
  rewrite Ems in Hc. split; [reflexivity|exact Hc].
Defined.

(** C6 (as stated) fails: of two messages with the same timestamp, each
    has a timestamp not greater than the other's, and only one precedes
    the other. *)
Lemma getMessages_chronological_counterexample :
  ~ claimed_chronological
      (messages_of (eval (getMessages (Some "+1111"))
                         (world [tie_a; tie_b] None))).
Proof.
  intros H.
  assert (E : messages_of (eval (getMessages (Some "+1111"))
                                (world [tie_a; tie_b] None))
              = [tie_a; tie_b]) by reflexivity.
  rewrite E in H.
  destruct (H 1%nat 0%nat tie_b tie_a) as [_ Hle];
    [discriminate|reflexivity|reflexivity|].
  assert (Hlt : (1 < 0)%nat) by (apply Hle; simpl; lia).
  lia.
Qed.

(** ** Listing the conversations *)

Lemma buildConversationSummary_pure (waId : string) (w : World) :
  exec (buildConversationSummary waId) w = w.
Proof.
  unfold exec, buildConversationSummary, bind, Message.findOne_sorted,
    Message.findOne. simpl.
  destruct (hd_error _); reflexivity.
Qed.

(** The summary of an id that some record carries as [wa_id] is not null
    and carries the id. *)
Lemma buildConversationSummary_some (waId : string) (w : World) :
  (exists d, In d (docs w) /\ wa_id d = waId) ->
  exists c, eval (buildConversationSummary waId) w = Some c
            /\ conv_wa_id c = waId.
Proof.
  intros (d & Hd & Hw).
  unfold eval, buildConversationSummary, bind, Message.findOne_sorted,
    Message.findOne. simpl.
  destruct (sort_by Message.timestamp_desc
              (filter (in_conversation waId) (docs w))) as [|last r] eqn:S.
  - exfalso.
    assert (Hin : In d (sort_by Message.timestamp_desc
                          (filter (in_conversation waId) (docs w)))).
    { apply sort_by_In, filter_In. split; [exact Hd|].
      apply in_conversation_true. left. exact Hw. }
    rewrite S in Hin. destruct Hin.
  - simpl. eexists. split; reflexivity.
Qed.

Lemma summaries_pure (senderIds : list string) (w : World) :
  exec (summaries senderIds) w = w.
Proof.
  induction senderIds as [|waId r IH]; [reflexivity|].
  simpl. rewrite !exec_bind, buildConversationSummary_pure, IH. reflexivity.
Qed.

Lemma summaries_ids (senderIds : list string) (w : World) :
  (forall waId, In waId senderIds ->
                exists d, In d (docs w) /\ wa_id d = waId) ->
  map conv_wa_id (eval (summaries senderIds) w) = senderIds.
Proof.
  induction senderIds as [|waId r IH]; intros H; [reflexivity|].
  simpl. rewrite !eval_bind, buildConversationSummary_pure, summaries_pure.
  destruct (buildConversationSummary_some waId w) as (c & E & Hc).
  { apply H. left. reflexivity. }
  rewrite E. unfold eval at 1. simpl. rewrite Hc. f_equal.
  apply IH. intros x Hx. apply H. right. exact Hx.
Qed.

Lemma inbound_ids_In (l : list Doc) (waId : string) :
  In waId (inbound_ids l) <->
  exists d, In d l /\ isOutgoing d = false /\ wa_id d = waId.
Proof.
  unfold inbound_ids, incoming. rewrite nodup_In, in_map_iff. split.
  - intros (d & Hw & Hd). apply filter_In in Hd. destruct Hd as [Hd Ho].
    exists d. apply negb_true_iff in Ho. auto.
  - intros (d & Hd & Ho & Hw). exists d. split; [exact Hw|].
    apply filter_In. split; [exact Hd|]. apply negb_true_iff. exact Ho.
Qed.

(** [getConversations] in one equation. *)
Lemma getConversations_eq (w : World) :
  getConversations w =
  (mkResponse 200 true
     (Conversations
        (sort_by latest_first (eval (summaries (inbound_ids (docs w))) w))),
   w).
Proof.
  unfold getConversations, bind, Message.distinct. simpl.
  fold (inbound_ids (docs w)).
  pose proof (summaries_pure (inbound_ids (docs w)) w) as P.
  unfold exec in P. unfold eval.
  destruct (summaries (inbound_ids (docs w)) w) as [cs w']. simpl in *.
  subst w'. reflexivity.
Qed.

Lemma conversation_ids (w : World) :
  Permutation
    (map conv_wa_id
         (sort_by latest_first (eval (summaries (inbound_ids (docs w))) w)))
    (inbound_ids (docs w)).
Proof.
  eapply perm_trans; [apply Permutation_map, sort_by_perm|].
  rewrite summaries_ids; [apply Permutation_refl|].
  intros waId H. apply inbound_ids_In in H.
  destruct H as (d & Hd & _ & Hw). eauto.
Qed.

(** C5. The conversation list has exactly one summary per distinct
    [wa_id] that appears on at least one inbound record; a contact with no
    inbound record, whatever outbound records are addressed to them, is
    not in it. *)
Theorem conversations_from_inbound (w : World) :
  exists cs,
    getConversations w = (mkResponse 200 true (Conversations cs), w)
    /\ NoDup (map conv_wa_id cs)
    /\ (forall waId,
          In waId (map conv_wa_id cs) <->
          exists d, In d (docs w) /\ isOutgoing d = false /\ wa_id d = waId)
    /\ (forall contact,
          (forall d, In d (docs w) -> wa_id d = contact ->
                     isOutgoing d = true) ->
          ~ In contact (map conv_wa_id cs)).
Proof.
  eexists. split; [apply getConversations_eq|].
  pose proof (conversation_ids w) as P.
  assert (Hin : forall waId,
             In waId (map conv_wa_id
                        (sort_by latest_first
                           (eval (summaries (inbound_ids (docs w))) w))) <->
             exists d, In d (docs w) /\ isOutgoing d = false
                       /\ wa_id d = waId).
  { intros waId. rewrite <- inbound_ids_In. split; apply Permutation_in;
      [exact P|apply Permutation_sym; exact P]. }
  split; [|split; [exact Hin|]].
  - eapply Permutation_NoDup; [apply Permutation_sym; exact P|].
    apply NoDup_nodup.
  - intros contact Hout Hc. apply Hin in Hc.
    destruct Hc as (d & Hd & Ho & Hw).
    rewrite (Hout d Hd Hw) in Ho. discriminate.
Qed.

Lemma conversations_from_inbound_witness :
  map conv_wa_id
      (conversations_of (eval getConversations
                              (world [from_alice; to_bob] None)))
  = ["+1111"]
  /\ ~ In "+2222"
        (map conv_wa_id
             (conversations_of (eval getConversations
                                     (world [from_alice; to_bob] None)))).
Proof.
  destruct (conversations_from_inbound (world [from_alice; to_bob] None))
    as (cs & E & _ & _ & Hout).
  assert (Ecs : conversations_of
                  (eval getConversations (world [from_alice; to_bob] None))
                = cs).
  { unfold eval. rewrite E. reflexivity. }
  split; [reflexivity|].
  rewrite Ecs. apply Hout.
  intros d [<-|[<-|[]]]; [discriminate|reflexivity].
Defined.

(** ** Health *)

(** C10. On the same state, the [totalConversations] of the health answer
    equals the number of summaries in the conversation list, and both equal
    the number of distinct [wa_id] values among the inbound records: the
    summary of each of these ids is not null. *)
Theorem health_counts_conversations (w : World) :
  exists cs totalMessages totalConversations now,
    eval getConversations w = mkResponse 200 true (Conversations cs)
    /\ eval getHealth w
       = mkResponse 200 true
                    (Health "OK" totalMessages totalConversations now)
    /\ totalConversations = List.length cs
    /\ totalConversations = List.length (inbound_ids (docs w))
    /\ Forall (fun waId => eval (buildConversationSummary waId) w <> None)
              (inbound_ids (docs w)).
Proof.
  exists (sort_by latest_first (eval (summaries (inbound_ids (docs w))) w)),
    (List.length (docs w)), (List.length (inbound_ids (docs w))),
    (time w (reads w)).
  split; [|split; [|split; [|split]]].
  - unfold eval. rewrite getConversations_eq. reflexivity.
  - reflexivity.
  - rewrite <- (Permutation_length (conversation_ids w)).
    rewrite length_map. reflexivity.
  - reflexivity.
  - apply Forall_forall. intros waId H. apply inbound_ids_In in H.
    destruct H as (d & Hd & _ & Hw).
    destruct (buildConversationSummary_some waId w) as (c & E & _); [eauto|].
    rewrite E. discriminate.
Qed.

(** ** Idempotent ingestion *)

Lemma known_ids (id : option string) (l : list Doc) :
  known id l = existsb (fun i => Js.strict_eq (Some i) id) (ids l).
Proof.
  unfold known, ids.
  induction l as [|d r IH]; simpl; [reflexivity|]. rewrite IH. reflexivity.
Qed.

Lemma known_app (id : option string) (l1 l2 : list Doc) :
  known id (l1 ++ l2) = known id l1 || known id l2.
Proof. unfold known. apply existsb_app. Qed.

Lemma known_not_In (d : Doc) (l : list Doc) :
  known (Some (messageId d)) l = false -> ~ In (messageId d) (ids l).
Proof.
  intros K Hin. unfold ids in Hin. apply in_map_iff in Hin.
  destruct Hin as (x & Hx & Hin).
  assert (K' : known (Some (messageId d)) l = true).
  { apply known_In. exists x. split; [exact Hin|congruence]. }
  congruence.
Qed.

Lemma NoDup_snoc {A} (l : list A) (x : A) :
  NoDup l -> ~ In x l -> NoDup (l ++ [x]).
Proof.
  intros Hl Hx.
  eapply Permutation_NoDup; [apply Permutation_cons_append|].
  constructor; assumption.
Qed.

Lemma saveMessage_unique (data : MessageData) (w : World) :
  unique_ids (docs w) -> unique_ids (docs (exec (saveMessage data) w)).
Proof.
  intros U. destruct (saveMessage_docs data w) as [S|(K & _ & d & C & S)];
    rewrite S; [exact U|].
  unfold unique_ids, ids. rewrite map_app. simpl.
  apply NoDup_snoc; [exact U|].
  apply cast_messageId in C. rewrite C in K. apply known_not_In. exact K.
Qed.

Lemma saveMessage_known (data : MessageData) (w : World) (id : option string) :
  known id (docs w) = true ->
  known id (docs (exec (saveMessage data) w)) = true.
Proof.
  intros K. destruct (saveMessage_docs data w) as [S|(_ & _ & d & _ & S)];
    rewrite S; [exact K|].
  rewrite known_app, K. reflexivity.
Qed.

Lemma saveMessage_covers (data : MessageData) (w : World) :
  acceptable data = true ->
  known (data_messageId data) (docs (exec (saveMessage data) w)) = true.
Proof.
  intros V. unfold exec. rewrite saveMessage_eq.
  destruct (known (data_messageId data) (docs w)) eqn:K; simpl; [exact K|].
  rewrite V. simpl.
  destruct (acceptable_cast data (time w (reads w)) V) as [d C].
  rewrite C. simpl. rewrite known_app.
  apply cast_messageId in C. rewrite C. simpl.
  unfold Message.by_messageId. simpl. rewrite String.eqb_refl.
  apply orb_true_r.
Qed.

Lemma saveMessage_env (data : MessageData) (w : World) :
  BUSINESS_PHONE_NUMBER (exec (saveMessage data) w) = BUSINESS_PHONE_NUMBER w.
Proof.
  unfold exec. rewrite saveMessage_eq.
  destruct (known _ _ || _); [reflexivity|].
  destruct (Message.cast _ _); reflexivity.
Qed.

Lemma processMessages_unique msgs v bn : forall w,
  unique_ids (docs w) ->
  unique_ids (docs (exec (processMessages msgs v bn) w)).
Proof.
  induction msgs as [|m r IH]; intros w U; [exact U|].
  destruct (create_total m v bn) as [data E].
  rewrite (processMessages_cons _ _ _ _ _ _ E).
  apply IH, saveMessage_unique, U.
Qed.

Lemma processMessages_known msgs v bn id : forall w,
  known id (docs w) = true ->
  known id (docs (exec (processMessages msgs v bn) w)) = true.
Proof.
  induction msgs as [|m r IH]; intros w K; [exact K|].
  destruct (create_total m v bn) as [data E].
  rewrite (processMessages_cons _ _ _ _ _ _ E).
  apply IH, saveMessage_known, K.
Qed.

Lemma processMessages_env msgs v bn : forall w,
  BUSINESS_PHONE_NUMBER (exec (processMessages msgs v bn) w)
  = BUSINESS_PHONE_NUMBER w.
Proof.
  induction msgs as [|m r IH]; intros w; [reflexivity|].
  destruct (create_total m v bn) as [data E].
  rewrite (processMessages_cons _ _ _ _ _ _ E), IH.
  apply saveMessage_env.
Qed.

(** After a run of [processMessages], the [messageId] of every entry
    whose object passes validation is in the collection. *)
Lemma processMessages_covers msgs v bn : forall w m data,
  In m msgs -> createMessageFromWebhook m v bn = Some data ->
  acceptable data = true ->
  known (data_messageId data) (docs (exec (processMessages msgs v bn) w))
  = true.
Proof.
  induction msgs as [|m0 r IH]; intros w m data Hm E V; [destruct Hm|].
  destruct (create_total m0 v bn) as [data0 E0].
  rewrite (processMessages_cons _ _ _ _ _ _ E0).
  destruct Hm as [->|Hm].
  - assert (data0 = data) by congruence. subst data0.
    apply processMessages_known, saveMessage_covers, V.
  - eapply IH; eassumption.
Qed.

(** A run of [processMessages] over entries that are all known or invalid
    changes nothing at all. *)
Lemma processMessages_noop msgs v bn (w : World) :
  (forall m data, In m msgs -> createMessageFromWebhook m v bn = Some data ->
                  acceptable data = true ->
                  known (data_messageId data) (docs w) = true) ->
  exec (processMessages msgs v bn) w = w.
Proof.
  induction msgs as [|m r IH]; intros H; [reflexivity|].
  destruct (create_total m v bn) as [data E].
  rewrite (processMessages_cons _ _ _ _ _ _ E).
  assert (S : exec (saveMessage data) w = w).
  { unfold exec. rewrite saveMessage_eq.
    destruct (acceptable data) eqn:V.
    - rewrite (H m data (or_introl eq_refl) E V). reflexivity.
    - rewrite orb_true_r. reflexivity. }
  rewrite S. apply IH. intros m' data' Hm. apply H. right. exact Hm.
Qed.

Lemma update_first_map (id : string) (f : Doc -> Doc) (l : list Doc) :
  unique_ids l ->
  fst (Message.update_first (Message.by_messageId (Some id)) f l)
  = map (fun d => if Message.by_messageId (Some id) d then f d else d) l.
Proof.
  unfold unique_ids, ids.
  induction l as [|d r IH]; intros U; simpl; [reflexivity|].
  inversion U as [|? ? Hd Hr]; subst.
  destruct (Message.by_messageId (Some id) d) eqn:B; simpl.
  - f_equal. symmetry. rewrite <- (map_id r) at 2. apply map_ext_in.
    intros x Hx.
    destruct (Message.by_messageId (Some id) x) eqn:Bx; [|reflexivity].
    exfalso. apply Hd. unfold Message.by_messageId in *.
    apply strict_eq_true in B, Bx.
    apply in_map_iff. exists x. split; [congruence|exact Hx].
  - specialize (IH Hr).
    destruct (Message.update_first _ f r). simpl in *. rewrite IH.
    reflexivity.
Qed.

Lemma status_step_docs (st : StatusEntry) (w : World) :
  unique_ids (docs w) ->
  docs (match Js.or (st_id st) (st_meta_msg_id st) with
        | Some id =>
            if Js.truthy (Js.or (st_id st) (st_meta_msg_id st))
            then exec (updateMessageStatus id (st_status st)) w
            else w
        | None => w
        end)
  = map (apply_status (time w (reads w)) st) (docs w).
Proof.
  intros U. unfold apply_status, applies.
  destruct (Js.or (st_id st) (st_meta_msg_id st)) as [id|].
  - destruct (Js.truthy (Some id)); simpl.
    + rewrite updateMessageStatus_docs, update_first_map by exact U.
      reflexivity.
    + symmetry. apply map_id.
  - simpl. symmetry. apply map_id.
Qed.

Lemma apply_status_messageId now st d :
  messageId (apply_status now st d) = messageId d.
Proof. unfold apply_status. destruct (applies st d); reflexivity. Qed.

Lemma applies_ext st d d' :
  messageId d = messageId d' -> applies st d = applies st d'.
Proof.
  intros E. unfold applies, Message.by_messageId. rewrite E. reflexivity.
Qed.

Lemma content_messageId d d' :
  content d = content d' -> messageId d = messageId d'.
Proof. intros E. apply (f_equal messageId) in E. exact E. Qed.

Lemma apply_status_content now now' st d d' :
  content d = content d' ->
  content (apply_status now st d) = content (apply_status now' st d').
Proof.
  intros E. unfold apply_status.
  rewrite (applies_ext st d d' (content_messageId _ _ E)).
  destruct (applies st d'); [|exact E].
  unfold content in *. simpl. injection E as -> -> -> -> -> -> -> -> -> _ ->.
  reflexivity.
Qed.

(** What settles a document depends on its content only. *)
Lemma settle_content sts : forall d d',
  content d = content d' -> content (settle sts d) = content (settle sts d').
Proof.
  unfold settle. induction sts as [|st r IH]; intros d d' E; [exact E|].
  simpl. apply IH, apply_status_content, E.
Qed.

(** Under the unique index, a run of status updates settles every
    document on its own. *)
Lemma processStatusUpdates_content sts : forall w,
  unique_ids (docs w) ->
  map content (docs (exec (processStatusUpdates sts) w))
  = map (fun d => content (settle sts d)) (docs w).
Proof.
  induction sts as [|st r IH]; intros w U; [reflexivity|].
  rewrite processStatusUpdates_cons.
  pose proof (status_step_docs st w U) as S.
  set (w' := match Js.or (st_id st) (st_meta_msg_id st) with
             | Some id =>
                 if Js.truthy (Js.or (st_id st) (st_meta_msg_id st))
                 then exec (updateMessageStatus id (st_status st)) w
                 else w
             | None => w
             end) in *.
  rewrite IH.
  - rewrite S, map_map. apply map_ext. intros d. simpl.
    apply settle_content, apply_status_content. reflexivity.
  - unfold unique_ids, ids in *. rewrite S, map_map.
    erewrite map_ext; [exact U|]. intros d. apply apply_status_messageId.
Qed.

Lemma last_status_ext sts d d' : forall acc,
  messageId d = messageId d' -> last_status sts d acc = last_status sts d' acc.
Proof.
  unfold last_status. induction sts as [|st r IH]; intros acc E; [reflexivity|].
  simpl. rewrite (applies_ext st d d' E). apply IH, E.
Qed.

(** Settling a document sets the status of the last designating entry, if
    there is one. *)
Lemma settle_last_status sts d0 : forall acc,
  fold_left (fun d st => apply_status 0 st d) sts
            (match acc with
             | Some s => Message.set_status s 0 d0
             | None => d0
             end)
  = match last_status sts d0 acc with
    | Some s => Message.set_status s 0 d0
    | None => d0
    end.
Proof.
  unfold last_status. induction sts as [|st r IH]; intros acc; [reflexivity|].
  simpl. rewrite <- IH. f_equal. unfold apply_status.
  assert (E : applies st (match acc with
                          | Some s => Message.set_status s 0 d0
                          | None => d0
                          end) = applies st d0).
  { apply applies_ext. destruct acc; reflexivity. }
  rewrite E. destruct (applies st d0); [|reflexivity].
  destruct acc; reflexivity.
Qed.

Lemma settle_idem sts d : settle sts (settle sts d) = settle sts d.
Proof.
  pose proof (settle_last_status sts d None) as E. simpl in E.
  fold (settle sts d) in E.
  destruct (last_status sts d None) as [s|] eqn:L.
  - rewrite E.
    pose proof (settle_last_status sts (Message.set_status s 0 d) None) as E'.
    simpl in E'. fold (settle sts (Message.set_status s 0 d)) in E'.
    rewrite (last_status_ext sts (Message.set_status s 0 d) d None eq_refl),
      L in E'.
    exact E'.
  - rewrite E. exact E.
Qed.

Lemma processStatusUpdates_env sts : forall w,
  BUSINESS_PHONE_NUMBER (exec (processStatusUpdates sts) w)
  = BUSINESS_PHONE_NUMBER w.
Proof.
  induction sts as [|st r IH]; intros w; [reflexivity|].
  rewrite processStatusUpdates_cons, IH.
  destruct (Js.or _ _) as [id|]; [|reflexivity].
  destruct (Js.truthy _); [|reflexivity].
  unfold exec, updateMessageStatus, bind, Date_now, Message.updateOne. simpl.
  destruct (Message.update_first _ _ (docs w)). reflexivity.
Qed.

Lemma extractWebhookData_env (data : WebhookData) (w w' : World) :
  BUSINESS_PHONE_NUMBER w = BUSINESS_PHONE_NUMBER w' ->
  eval (extractWebhookData data) w = eval (extractWebhookData data) w'.
Proof.
  intros E. unfold extractWebhookData.
  destruct (metaData data) as [[[[|e0 ?]|]]|]; try reflexivity.
  destruct (changes e0) as [[|[[v|]] ?]|]; try reflexivity.
  unfold eval, bind, process_env_BUSINESS_PHONE_NUMBER. simpl.
  rewrite E. reflexivity.
Qed.

Lemma unique_ids_eq (l l' : list Doc) :
  ids l = ids l' -> unique_ids l -> unique_ids l'.
Proof. unfold unique_ids. intros <-. exact id. Qed.

Lemma known_ids_eq (id : option string) (l l' : list Doc) :
  ids l = ids l' -> known id l = known id l'.
Proof. intros E. rewrite !known_ids, E. reflexivity. Qed.

(** The second status run over a settled collection settles nothing
    more. *)
Lemma processStatusUpdates_twice sts (w w1 : World) :
  unique_ids (docs w) ->
  docs w1 = docs (exec (processStatusUpdates sts) w) ->
  map content (docs (exec (processStatusUpdates sts) w1))
  = map content (docs w1).
Proof.
  intros U E1.
  assert (U1 : unique_ids (docs w1)).
  { eapply unique_ids_eq; [|exact U].
    rewrite E1. symmetry. apply processStatusUpdates_ids. }
  rewrite (processStatusUpdates_content sts w1 U1).
  transitivity (map (fun c => content (settle sts c)) (map content (docs w1))).
  { rewrite map_map. apply map_ext. intros d.
    apply settle_content. reflexivity. }
  rewrite E1 at 1. rewrite (processStatusUpdates_content sts w U), map_map.
  rewrite E1, (processStatusUpdates_content sts w U).
  apply map_ext. intros d.
  rewrite <- (settle_idem sts d) at 2.
  apply settle_content. reflexivity.
Qed.

(** C2. Ingestion is idempotent per [messageId].  On a collection that
    satisfies the unique index, ingesting a document once and again keeps
    one record per [messageId]: every entry that passes validation has
    exactly one record, and the second ingestion stores the same records
    with the same content (the audit time [updatedAt] apart).  Saving a
    message entry whose [messageId] is already present is a no-op: the
    world is returned as it was. *)
Theorem ingestion_idempotent (w : World) (file : option WebhookData) :
  unique_ids (docs w) ->
  let w1 := exec (processWebhookFile file) w in
  let w2 := exec (processWebhookFile file) w1 in
  unique_ids (docs w1)
  /\ unique_ids (docs w2)
  /\ map content (docs w2) = map content (docs w1)
  /\ (forall data info m entry_data id,
        file = Some data ->
        eval (extractWebhookData data) w = Some info ->
        In m (entries info) ->
        createMessageFromWebhook m (info_value info) (info_businessNumber info)
        = Some entry_data ->
        acceptable entry_data = true ->
        msg_id m = Some id ->
        count_occ string_dec (ids (docs w2)) id = 1%nat)
  /\ (forall entry_data w',
        known (data_messageId entry_data) (docs w') = true ->
        saveMessage entry_data w' = (false, w')).
Proof.
  intros U.
  assert (Hsave : forall entry_data w',
             known (data_messageId entry_data) (docs w') = true ->
             saveMessage entry_data w' = (false, w')).
  { intros entry_data w' K. rewrite saveMessage_eq, K. reflexivity. }
  destruct file as [data|]; cbv zeta.
  2:{ change (exec (processWebhookFile None) w) with w.
      change (exec (processWebhookFile None) w) with w.
      repeat split; auto. intros; discriminate. }
  destruct (eval (extractWebhookData data) w) as [info|] eqn:E.
  2:{ rewrite !(processWebhookFile_skip _ _ E).
      repeat split; auto.
      intros data' info' m entry_data id Hf E'. injection Hf as <-.
      congruence. }
  rewrite (processWebhookFile_batch _ _ _ E).
  set (v := info_value info). set (bn := info_businessNumber info).
  set (wp := exec (processMessages (entries info) v bn) w).
  set (w1 := exec (processStatusUpdates (status_entries info)) wp).
  assert (Up : unique_ids (docs wp)) by (apply processMessages_unique, U).
  assert (I1 : ids (docs w1) = ids (docs wp))
    by apply processStatusUpdates_ids.
  assert (U1 : unique_ids (docs w1)).
  { eapply unique_ids_eq; [symmetry; exact I1|exact Up]. }
  assert (Hcov : forall m entry_data,
             In m (entries info) ->
             createMessageFromWebhook m v bn = Some entry_data ->
             acceptable entry_data = true ->
             known (data_messageId entry_data) (docs w1) = true).
  { intros m entry_data Hm Hc V.
    rewrite (known_ids_eq _ _ _ I1).
    eapply processMessages_covers; eassumption. }
  assert (E1 : eval (extractWebhookData data) w1 = Some info).
  { rewrite <- E. apply extractWebhookData_env.
    unfold w1, wp. rewrite processStatusUpdates_env, processMessages_env.
    reflexivity. }
  rewrite (processWebhookFile_batch _ _ _ E1). fold v bn.
  rewrite (processMessages_noop _ v bn w1 Hcov).
  set (w2 := exec (processStatusUpdates (status_entries info)) w1).
  assert (I2 : ids (docs w2) = ids (docs w1))
    by apply processStatusUpdates_ids.
  assert (U2 : unique_ids (docs w2)).
  { eapply unique_ids_eq; [symmetry; exact I2|exact U1]. }
  split; [exact U1|]. split; [exact U2|]. split; [|split; [|exact Hsave]].
  - apply (processStatusUpdates_twice _ wp w1 Up). reflexivity.
  - intros data' info' m entry_data id Hf E' Hm Hc V Hid.
    injection Hf as <-. rewrite E in E'. injection E' as <-.
    apply NoDup_count_occ'; [exact U2|].
    specialize (Hcov m entry_data Hm Hc V).
    rewrite <- (known_ids_eq _ _ _ I2) in Hcov.
    apply known_In in Hcov. destruct Hcov as (d & Hd & Hk).
    assert (Hdata : data_messageId entry_data = msg_id m).
    { unfold createMessageFromWebhook in Hc.
      destruct (Js.truthy _ && _); injection Hc as <-; reflexivity. }
    unfold ids. apply in_map_iff. exists d. split; [congruence|exact Hd].
Qed.

Lemma ingestion_idempotent_witness :
  ids (docs (exec (processWebhookFile (Some (document scenario_with_receipt)))
                  (world [] None))) = ["m1"]
  /\ map content
         (docs (exec (processWebhookFile
                        (Some (document scenario_with_receipt)))
                     (exec (processWebhookFile
                              (Some (document scenario_with_receipt)))
                           (world [] None))))
     = map content
           (docs (exec (processWebhookFile
                          (Some (document scenario_with_receipt)))
                       (world [] None))).
Proof.
  destruct (ingestion_idempotent (world [] None)
              (Some (document scenario_with_receipt)))
    as (_ & _ & H & _).
  - constructor.
  - split; [reflexivity|exact H].
Defined.

(** * Further properties of the processor and the controller *)

(** ** The unique index is an invariant *)

Lemma processWebhookFile_unique (file : option WebhookData) (w : World) :
  unique_ids (docs w) -> unique_ids (docs (exec (processWebhookFile file) w)).
Proof.
  intros U. destruct file as [data|]; [|exact U].
  destruct (eval (extractWebhookData data) w) as [info|] eqn:E.
  - rewrite (processWebhookFile_batch _ _ _ E).
    eapply unique_ids_eq;
      [symmetry; apply processStatusUpdates_ids|].
    apply processMessages_unique, U.
  - rewrite (processWebhookFile_skip _ _ E). exact U.
Qed.

Lemma processAllWebhookFiles_cons file files w :
  exec (processAllWebhookFiles (file :: files)) w
  = exec (processAllWebhookFiles files) (exec (processWebhookFile file) w).
Proof. unfold processAllWebhookFiles. apply exec_forEach_cons. Qed.

Lemma sendMessage_invalid (w : World) (waId text name : option string) :
  isValid (validateMessageInput text waId) = false ->
  exec (sendMessage waId text name) w = w.
Proof. intros V. unfold exec, sendMessage. rewrite V. reflexivity. Qed.

(** The three outcomes of [sendMessage] on the collection. *)
Lemma sendMessage_cases (w : World) (waId text name : option string) :
  docs (exec (sendMessage waId text name) w) = docs w
  \/ exists i t,
      waId = Some i /\ text = Some t /\ Js.trim t <> "" /\ i <> ""
      /\ known (Some (next_messageId w)) (docs w) = false
      /\ docs (exec (sendMessage waId text name) w)
         = docs w
           ++ [mkDoc (next_messageId w) "business" (Js.trim t) "text"
                     (Js.or_default (BUSINESS_PHONE_NUMBER w) "+1234567890")
                     i "You" (time w (S (reads w))) true "sent"
                     (time w (S (S (reads w)))) (time w (S (S (reads w))))].
Proof.
  destruct (isValid (validateMessageInput text waId)) eqn:V.
  - apply validateMessageInput_valid in V.
    destruct V as (t & i & -> & Ht & -> & Hi).
    pose proof (sendMessage_valid w i t name Ht Hi) as S. simpl in S.
    destruct (known _ (docs w)) eqn:K; destruct S as [_ S].
    + left. exact S.
    + right. exists i, t. auto 8.
  - left. rewrite (sendMessage_invalid _ _ _ _ V). reflexivity.
Qed.

Lemma processAllWebhookFiles_unique files : forall w,
  unique_ids (docs w) ->
  unique_ids (docs (exec (processAllWebhookFiles files) w)).
Proof.
  induction files as [|file files IH]; intros w U; [exact U|].
  rewrite processAllWebhookFiles_cons.
  apply IH, processWebhookFile_unique, U.
Qed.

(** X1. The unique index on [messageId] is an invariant of every writer:
    a collection without duplicate [messageId] has none after the
    processing of any list of webhook files and none after any call of
    [sendMessage]. *)
Theorem unique_index_is_invariant (w : World) :
  unique_ids (docs w) ->
  (forall files, unique_ids (docs (exec (processAllWebhookFiles files) w)))
  /\ (forall waId text name,
        unique_ids (docs (exec (sendMessage waId text name) w))).
Proof.
  intros U. split.
  - intros files. apply processAllWebhookFiles_unique, U.
  - intros waId text name.
    destruct (sendMessage_cases w waId text name)
      as [S|(i & t & _ & _ & _ & _ & K & S)]; rewrite S; [exact U|].
    unfold unique_ids, ids. rewrite map_app. simpl.
    apply NoDup_snoc; [exact U|].
    apply (known_not_In
             (mkDoc (next_messageId w) "" "" "" "" "" "" 0 true "" 0 0)).
    exact K.
Qed.

Lemma unique_index_is_invariant_witness :
  unique_ids
    (docs (exec (sendMessage (Some "+1111") (Some "hello") None)
                (exec (processAllWebhookFiles
                         [Some (document (scenario (Some "+9999")));
                          Some (document (scenario (Some "+9999")))])
                      (world [] None)))).
Proof.
  destruct (unique_index_is_invariant (world [] None)) as [Hfiles _].
  { constructor. }
  destruct (unique_index_is_invariant
              (exec (processAllWebhookFiles
                       [Some (document (scenario (Some "+9999")));
                        Some (document (scenario (Some "+9999")))])
                    (world [] None))) as [_ Hsend].
  { apply Hfiles. }
  apply Hsend.
Defined.

(** ** Ingestion only appends *)

Lemma extends_refl (l : list Doc) : extends l l.
Proof.
  exists l, []. split; [symmetry; apply app_nil_r|].
  apply Forall2_refl, same_but_status_refl.
Qed.

Lemma extends_trans (l1 l2 l3 : list Doc) :
  extends l1 l2 -> extends l2 l3 -> extends l1 l3.
Proof.
  intros (k1 & a1 & -> & F1) (k2 & a2 & -> & F2).
  apply Forall2_app_inv_l in F2.
  destruct F2 as (k1' & a1' & Fk & Fa & ->).
  exists k1', (a1' ++ a2). split; [symmetry; apply app_assoc|].
  eapply Forall2_trans; [exact same_but_status_trans|exact F1|exact Fk].
Qed.

Lemma extends_app (l added : list Doc) : extends l (l ++ added).
Proof.
  exists l, added. split; [reflexivity|].
  apply Forall2_refl, same_but_status_refl.
Qed.

Lemma extends_frame (l l' : list Doc) :
  Forall2 same_but_status l l' -> extends l l'.
Proof.
  intros F. exists l', []. split; [symmetry; apply app_nil_r|exact F].
Qed.

Lemma processMessages_extends msgs v bn : forall w,
  exists added,
    docs (exec (processMessages msgs v bn) w) = docs w ++ added
    /\ List.length added <= List.length msgs.
Proof.
  induction msgs as [|m r IH]; intros w.
  - exists []. split; [symmetry; apply app_nil_r|apply Nat.le_refl].
  - destruct (create_total m v bn) as [data E].
    rewrite (processMessages_cons _ _ _ _ _ _ E).
    destruct (IH (exec (saveMessage data) w)) as (added & Hd & Hl).
    rewrite Hd.
    destruct (saveMessage_docs data w) as [S|(_ & _ & d & _ & S)]; rewrite S.
    + exists added. split; [reflexivity|]. simpl. lia.
    + exists (d :: added). split.
      * rewrite <- app_assoc. reflexivity.
      * simpl. lia.
Qed.

Lemma processWebhookFile_extends (file : option WebhookData) (w : World) :
  extends (docs w) (docs (exec (processWebhookFile file) w)).
Proof.
  destruct file as [data|]; [|apply extends_refl].
  destruct (eval (extractWebhookData data) w) as [info|] eqn:E.
  - rewrite (processWebhookFile_batch _ _ _ E).
    eapply extends_trans; [|apply extends_frame, processStatusUpdates_frame].
    destruct (processMessages_extends (entries info) (info_value info)
                (info_businessNumber info) w) as (added & -> & _).
    apply extends_app.
  - rewrite (processWebhookFile_skip _ _ E). apply extends_refl.
Qed.

Lemma processAllWebhookFiles_extends files : forall w,
  extends (docs w) (docs (exec (processAllWebhookFiles files) w)).
Proof.
  induction files as [|file files IH]; intros w; [apply extends_refl|].
  rewrite processAllWebhookFiles_cons.
  eapply extends_trans; [apply processWebhookFile_extends|apply IH].
Qed.

(** X2. The writers only append.  After the processing of any list of
    webhook files every document of the collection is still there, at its
    place and with every path but [status] and [updatedAt] unchanged,
    followed by the added documents; [sendMessage] leaves every document
    exactly as it is and adds at most one. *)
Theorem writers_only_append (w : World) :
  (forall files,
      extends (docs w) (docs (exec (processAllWebhookFiles files) w)))
  /\ (forall waId text name,
        exists added,
          docs (exec (sendMessage waId text name) w) = docs w ++ added
          /\ List.length added <= 1).
Proof.
  split.
  - intros files. apply processAllWebhookFiles_extends.
  - intros waId text name.
    destruct (sendMessage_cases w waId text name)
      as [S|(i & t & _ & _ & _ & _ & _ & S)]; rewrite S.
    + exists []. split; [symmetry; apply app_nil_r|]. simpl. lia.
    + eexists. split; [reflexivity|]. simpl. lia.
Qed.

(** ** Saving and looking up *)

Lemma find_app_none {A} (f : A -> bool) (l1 l2 : list A) :
  List.find f l1 = None -> List.find f (l1 ++ l2) = List.find f l2.
Proof.
  induction l1 as [|x r IH]; simpl; [reflexivity|].
  destruct (f x); [discriminate|exact IH].
Qed.

(** X3. [saveMessage] answers [true] exactly when it stores: then the
    collection is the old one followed by the cast of the object, and
    looking the [messageId] up finds that document; when it answers
    [false] the world is exactly as before. *)
Theorem saveMessage_then_findOne (w : World) (data : MessageData) :
  (eval (saveMessage data) w = true ->
   exists d,
     Message.cast data (time w (reads w)) = Some d
     /\ docs (exec (saveMessage data) w) = docs w ++ [d]
     /\ eval (Message.findOne (Message.by_messageId (data_messageId data)))
             (exec (saveMessage data) w) = Some d)
  /\ (eval (saveMessage data) w = false -> exec (saveMessage data) w = w).
Proof.
  unfold eval, exec. rewrite saveMessage_eq.
  destruct (known (data_messageId data) (docs w)) eqn:K; simpl;
    [split; [discriminate|reflexivity]|].
  destruct (acceptable data) eqn:V; simpl;
    [|split; [discriminate|reflexivity]].
  destruct (Message.cast data (time w (reads w))) as [d|] eqn:C; simpl;
    [|split; [discriminate|reflexivity]].
  split; [|discriminate]. intros _. exists d.
  split; [reflexivity|]. split; [reflexivity|].
  unfold Message.findOne. simpl.
  unfold known in K. rewrite find_existsb in K.
  rewrite find_app_none by (destruct (List.find _ (docs w)); congruence).
  simpl. apply cast_messageId in C. rewrite C.
  unfold Message.by_messageId. simpl. rewrite String.eqb_refl. reflexivity.
Qed.

Lemma saveMessage_then_findOne_witness :
  (exists d,
      docs (exec (saveMessage
                    (mkData (Some "m1") (Some "+1111") "hi" "text"
                            (Some "+1111") (Some "+9999") "Alice"
                            (Js.Num 1000000) false "received"))
                 (world [] None)) = [d]
      /\ messageId d = "m1")
  /\ exec (saveMessage
             (mkData (Some "t1") (Some "+1111") "again" "text"
                     (Some "+1111") (Some "+9999") "Alice"
                     (Js.Num 5) false "received"))
          (world [tie_a] None) = world [tie_a] None.
Proof.
  split.
  - destruct (saveMessage_then_findOne
                (world [] None)
                (mkData (Some "m1") (Some "+1111") "hi" "text"
                        (Some "+1111") (Some "+9999") "Alice"
                        (Js.Num 1000000) false "received")) as [H _].
    destruct (H eq_refl) as (d & C & S & _).
    exists d. split; [exact S|].
    injection C as <-. reflexivity.
  - destruct (saveMessage_then_findOne
                (world [tie_a] None)
                (mkData (Some "t1") (Some "+1111") "again" "text"
                        (Some "+1111") (Some "+9999") "Alice"
                        (Js.Num 5) false "received")) as [_ H].
    exact (H eq_refl).
Defined.

(** ** How many records a batch adds *)

(** X4. The ingestion of one webhook document adds at most one record per
    message entry, and none for a status entry: the collection never
    shrinks and grows by at most the number of message entries. *)
Theorem ingestion_growth_is_bounded (w : World) (data : WebhookData)
        (info : WebhookInfo) :
  eval (extractWebhookData data) w = Some info ->
  (List.length (docs w)
   <= List.length (docs (exec (processWebhookFile (Some data)) w)))%nat
  /\ (List.length (docs (exec (processWebhookFile (Some data)) w))
      <= List.length (docs w) + List.length (entries info))%nat.
Proof.
  intros E. rewrite (processWebhookFile_batch _ _ _ E).
  pose proof (Forall2_length
                (processStatusUpdates_frame
                   (status_entries info)
                   (exec (processMessages (entries info) (info_value info)
                                          (info_businessNumber info)) w)))
    as L.
  rewrite <- L.
  destruct (processMessages_extends (entries info) (info_value info)
              (info_businessNumber info) w) as (added & -> & Hl).
  rewrite length_app. lia.
Qed.

Lemma ingestion_growth_is_bounded_witness :
  (List.length
     (docs (exec (processWebhookFile (Some (document scenario_with_receipt)))
                 (world [tie_a] None))) <= 1 + 1)%nat.
Proof.
  destruct (ingestion_growth_is_bounded
              (world [tie_a] None) (document scenario_with_receipt)
              (mkInfo scenario_with_receipt (Some "+9999") (Some [m1])
                      (Some [read_receipt])) eq_refl) as [_ H].
  exact H.
Defined.

(** ** Entries that the schema turns away *)

Lemma unacceptable_toNumber (data : MessageData) :
  Js.truthy (data_toNumber data) = false -> acceptable data = false.
Proof.
  intros H. destruct (acceptable data) eqn:V; [|reflexivity].
  apply acceptable_paths in V. destruct V as (_ & _ & _ & V & _). congruence.
Qed.

Lemma saveMessage_unacceptable (data : MessageData) (w : World) :
  acceptable data = false -> exec (saveMessage data) w = w.
Proof.
  intros V. unfold exec. rewrite saveMessage_eq, V, orb_true_r. reflexivity.
Qed.

Lemma processMessages_none_acceptable msgs v bn (w : World) :
  (forall m data, In m msgs -> createMessageFromWebhook m v bn = Some data ->
                  acceptable data = false) ->
  exec (processMessages msgs v bn) w = w.
Proof.
  intros H. apply processMessages_noop.
  intros m data Hm E V. rewrite (H m data Hm E) in V. discriminate.
Qed.

(** X5. Without a business address nothing is stored: when neither the
    document's metadata nor the environment gives a non-empty business
    address, no message entry of the document passes the schema (the
    required [toNumber] is missing), and the document only applies its
    status updates.  Likewise a message sent by the business is not stored
    when the batch has no contact to address it to. *)
Theorem unaddressed_entries_are_not_stored (w : World) :
  (forall data info,
      eval (extractWebhookData data) w = Some info ->
      Js.truthy (info_businessNumber info) = false ->
      exec (processWebhookFile (Some data)) w
      = exec (processStatusUpdates (status_entries info)) w)
  /\ (forall m v bn entry_data,
        createMessageFromWebhook m v bn = Some entry_data ->
        data_isOutgoing entry_data = true ->
        contact_list v = [] ->
        saveMessage entry_data w = (false, w)).
Proof.
  split.
  - intros data info E B. rewrite (processWebhookFile_batch _ _ _ E).
    f_equal. apply processMessages_none_acceptable.
    intros m entry_data _ Hc. apply unacceptable_toNumber.
    unfold createMessageFromWebhook in Hc. rewrite B in Hc. simpl in Hc.
    injection Hc as <-. exact B.
  - intros m v bn entry_data Hc Ho Hl.
    assert (V : acceptable entry_data = false).
    { apply unacceptable_toNumber.
      unfold createMessageFromWebhook in Hc.
      destruct (Js.truthy bn && Js.strict_eq (msg_from m) bn);
        injection Hc as <-; [|discriminate].
      simpl. unfold contact_list in Hl.
      destruct (contacts v) as [[|c r]|]; [reflexivity|discriminate|reflexivity]. }
    rewrite saveMessage_eq, V, orb_true_r. reflexivity.
Qed.

Lemma unaddressed_entries_are_not_stored_witness :
  docs (exec (processWebhookFile (Some (document anonymous_batch)))
             (world [] None)) = []
  /\ docs (exec (processWebhookFile (Some (document lonely_batch)))
               (world [] None)) = [].
Proof.
  destruct (unaddressed_entries_are_not_stored (world [] None)) as [Hbn Hout].
  split.
  - rewrite (Hbn (document anonymous_batch)
                 (mkInfo anonymous_batch None (Some [m1]) None)
                 eq_refl eq_refl).
    reflexivity.
  - pose proof (Hout m2 lonely_batch (Some "+9999") _ eq_refl eq_refl eq_refl)
      as H.
    unfold processWebhookFile, document, lonely_batch, exec, bind,
      extractWebhookData, process_env_BUSINESS_PHONE_NUMBER, processMessages.
    cbn -[saveMessage createMessageFromWebhook].
    unfold bind. cbn -[saveMessage createMessageFromWebhook].
    unfold lonely_batch in H. cbn -[saveMessage] in H.
    cbn -[saveMessage]. rewrite H. reflexivity.
Defined.

(** ** Stored records are well formed *)

Lemma mem_In (x : string) (l : list string) :
  Message.mem x l = true -> In x l.
Proof.
  unfold Message.mem. intros H. apply existsb_exists in H.
  destruct H as (y & Hy & E). apply String.eqb_eq in E. subst. exact Hy.
Qed.

Lemma acceptable_messageType (d : MessageData) :
  acceptable d = true -> In (data_messageType d) Message.messageType_enum.
Proof.
  unfold acceptable, Message.invalid_paths, Message.required, Message.in_enum.
  destruct (Js.truthy (data_messageId d)); [|discriminate].
  destruct (Js.truthy (data_wa_id d)); [|discriminate].
  destruct (Message.mem (data_messageType d) Message.messageType_enum) eqn:E;
    [|discriminate].
  intros _. apply mem_In, E.
Qed.

Lemma or_default_nonempty (a : option string) (d : string) :
  d <> "" -> Js.or_default a d <> "".
Proof.
  intros Hd. unfold Js.or_default. destruct a as [s|]; [|exact Hd].
  destruct (s =? "") eqn:E; [exact Hd|]. apply String.eqb_neq. exact E.
Qed.

Lemma getContactInfoFromWebhook_name from cs :
  snd (getContactInfoFromWebhook from cs) <> "".
Proof.
  unfold getContactInfoFromWebhook.
  destruct cs as [[|c0 r]|]; simpl; try discriminate.
  apply or_default_nonempty. discriminate.
Qed.

Lemma truthy_nonempty (s : string) : Js.truthy (Some s) = true -> s <> "".
Proof.
  intros H. apply truthy_Some in H. destruct H as (s' & E & H).
  injection E as <-. exact H.
Qed.

Lemma created_well_formed m v bn data now d :
  createMessageFromWebhook m v bn = Some data ->
  acceptable data = true ->
  Message.cast data now = Some d ->
  well_formed d.
Proof.
  intros E V C.
  pose proof (acceptable_messageType _ V) as Ht.
  apply acceptable_paths in V. destruct V as (V1 & V2 & V3 & V4 & _).
  assert (Hname : data_contactName data <> ""
                  /\ (data_isOutgoing data = true ->
                      data_contactName data = "You")).
  { unfold createMessageFromWebhook in E.
    destruct (Js.truthy bn && Js.strict_eq (msg_from m) bn);
      injection E as <-; simpl.
    - split; [discriminate|reflexivity].
    - split; [apply getContactInfoFromWebhook_name|discriminate]. }
  unfold Message.cast in C.
  destruct (data_messageId data) as [i|]; [|discriminate].
  destruct (data_wa_id data) as [x|]; [|discriminate].
  destruct (data_fromNumber data) as [f|]; [|discriminate].
  destruct (data_toNumber data) as [t|]; [|discriminate].
  destruct (data_timestamp data) as [|ts]; [discriminate|].
  injection C as <-. unfold well_formed. simpl.
  destruct Hname as [Hn Hy].
  repeat split; auto using truthy_nonempty.
Qed.

Lemma well_formed_frame (d d' : Doc) :
  same_but_status d d' -> well_formed d -> well_formed d'.
Proof.
  unfold same_but_status, well_formed. destruct d, d'; simpl.
  intros (? & ? & ? & ? & ? & ? & ? & ? & ? & ?); subst. exact id.
Qed.

Lemma processWebhookFile_well_formed (file : option WebhookData) (w : World) :
  Forall well_formed (docs w) ->
  Forall well_formed (docs (exec (processWebhookFile file) w)).
Proof.
  intros H. destruct file as [data|]; [|exact H].
  destruct (eval (extractWebhookData data) w) as [info|] eqn:E.
  - apply Forall_forall. intros d Hd.
    destruct (processWebhookFile_In _ _ _ _ E Hd)
      as (d1 & Hs & [H1|(m & entry_data & now & _ & Hc & Hv & Hcast)]).
    + apply (well_formed_frame _ _ Hs).
      rewrite Forall_forall in H. apply H, H1.
    + apply (well_formed_frame _ _ Hs).
      eapply created_well_formed; eassumption.
  - rewrite (processWebhookFile_skip _ _ E). exact H.
Qed.

(** X6. Every stored record is well formed, and stays so: in a collection
    whose records have a non-empty [messageId], [wa_id], [fromNumber],
    [toNumber] and [contactName], a [messageType] of the schema's list, and
    the name ["You"] when outgoing, the records have these properties
    after the processing of any list of webhook files and after any call
    of [sendMessage]. *)
Theorem stored_records_are_well_formed (w : World) :
  Forall well_formed (docs w) ->
  (forall files,
      Forall well_formed (docs (exec (processAllWebhookFiles files) w)))
  /\ (forall waId text name,
        Forall well_formed (docs (exec (sendMessage waId text name) w))).
Proof.
  intros H. split.
  - intros files. revert w H.
    induction files as [|file files IH]; intros w H; [exact H|].
    rewrite processAllWebhookFiles_cons.
    apply IH, processWebhookFile_well_formed, H.
  - intros waId text name.
    destruct (sendMessage_cases w waId text name)
      as [S|(i & t & _ & _ & _ & Hi & _ & S)]; rewrite S; [exact H|].
    apply Forall_app. split; [exact H|].
    constructor; [|constructor].
    unfold well_formed, next_messageId. simpl.
    repeat split; try discriminate; auto.
    apply or_default_nonempty. discriminate.
Qed.

Lemma stored_records_are_well_formed_witness :
  Forall well_formed
         (docs (exec (sendMessage (Some "+1111") (Some "hello") None)
                     (exec (processAllWebhookFiles
                              [Some (document scenario_with_receipt);
                               Some (document outbound_batch)])
                           (world [] None)))).
Proof.
  destruct (stored_records_are_well_formed (world [] None)) as [Hfiles _].
  { constructor. }
  destruct (stored_records_are_well_formed
              (exec (processAllWebhookFiles
                       [Some (document scenario_with_receipt);
                        Some (document outbound_batch)])
                    (world [] None))) as [_ Hsend].
  { apply Hfiles. }
  apply Hsend.
Defined.

(** ** What a conversation summary shows *)

Lemma timestamp_desc_sorted (l : list Doc) :
  StronglySorted (fun a b => (timestamp b <= timestamp a)%Z)
                 (sort_by Message.timestamp_desc l).
Proof.
  assert (H : StronglySorted (fun a b => Message.timestamp_desc a b = true)
                             (sort_by Message.timestamp_desc l)).
  { apply sort_by_sorted; unfold Message.timestamp_desc.
    - intros a b. rewrite !Z.leb_le. lia.
    - intros a b c. rewrite !Z.leb_le. lia. }
  induction H as [|x r Hs IH Hall]; constructor; [exact IH|].
  eapply Forall_impl; [|exact Hall].
  intros a Ha. apply Z.leb_le. exact Ha.
Qed.

(** The head of the descending sort is a latest document. *)
Lemma latest_is_head (l : list Doc) (x : Doc) :
  hd_error (sort_by Message.timestamp_desc l) = Some x ->
  In x l /\ forall y, In y l -> (timestamp y <= timestamp x)%Z.
Proof.
  intros H. pose proof (timestamp_desc_sorted l) as S.
  destruct (sort_by Message.timestamp_desc l) as [|x' r] eqn:E; [discriminate|].
  injection H as ->.
  assert (P : forall y, In y l <-> In y (x :: r)).
  { intros y. rewrite <- E. symmetry. apply sort_by_In. }
  split; [apply P; left; reflexivity|].
  intros y Hy. apply P in Hy. destruct Hy as [<-|Hy]; [apply Z.le_refl|].
  apply StronglySorted_inv in S. destruct S as [_ S].
  rewrite Forall_forall in S. apply S, Hy.
Qed.

Lemma buildConversationSummary_eq (waId : string) (w : World) :
  eval (buildConversationSummary waId) w =
  match hd_error (sort_by Message.timestamp_desc
                          (filter (in_conversation waId) (docs w))) with
  | None => None
  | Some lastMessage =>
      Some (mkSummary
              waId
              (Js.or_default
                 (option_map fromNumber
                             (List.find (incoming_of waId) (docs w))) waId)
              (Js.or_default
                 (option_map contactName
                             (List.find (incoming_of waId) (docs w)))
                 "Unknown")
              (Js.or_default (Some (text lastMessage)) "No message")
              (timestamp lastMessage) (isOutgoing lastMessage))
  end.
Proof.
  unfold eval, buildConversationSummary, bind, Message.findOne_sorted,
    Message.findOne. simpl.
  destruct (hd_error _); reflexivity.
Qed.

Lemma summaries_In (senderIds : list string) (w : World) (c : Summary) :
  In c (eval (summaries senderIds) w) ->
  exists waId, In waId senderIds
               /\ eval (buildConversationSummary waId) w = Some c.
Proof.
  induction senderIds as [|waId r IH]; intros H; [destruct H|].
  simpl in H.
  rewrite !eval_bind, buildConversationSummary_pure, summaries_pure in H.
  destruct (eval (buildConversationSummary waId) w) as [c0|] eqn:E;
    unfold eval at 1 in H; simpl in H.
  - destruct H as [<-|H].
    + exists waId. split; [left; reflexivity|exact E].
    + destruct (IH H) as (x & Hx & Ex). exists x. split; [right|]; assumption.
  - destruct (IH H) as (x & Hx & Ex). exists x. split; [right|]; assumption.
Qed.

Lemma latest_first_sorted (l : list Summary) :
  StronglySorted
    (fun a b => (conv_lastMessageTime b <= conv_lastMessageTime a)%Z)
    (sort_by latest_first l).
Proof.
  assert (H : StronglySorted (fun a b => latest_first a b = true)
                             (sort_by latest_first l)).
  { apply sort_by_sorted; unfold latest_first.
    - intros a b. rewrite !Z.leb_le. lia.
    - intros a b c. rewrite !Z.leb_le. lia. }
  induction H as [|x r Hs IH Hall]; constructor; [exact IH|].
  eapply Forall_impl; [|exact Hall].
  intros a Ha. apply Z.leb_le. exact Ha.
Qed.

(** X7. The conversation list comes latest first, and every summary shows
    a latest record of its conversation: the list is sorted by descending
    [lastMessageTime], and each summary takes its [lastMessageTime],
    [lastMessage] (or ['No message'] for an empty text) and
    [isLastOutgoing] from a stored record of the conversation (by [wa_id]
    or by [toNumber]) whose timestamp no record of the conversation
    exceeds. *)
Theorem conversations_show_latest_message (w : World) :
  StronglySorted
    (fun a b => (conv_lastMessageTime b <= conv_lastMessageTime a)%Z)
    (conversations_of (eval getConversations w))
  /\ Forall
       (fun c =>
          exists d,
            In d (docs w)
            /\ (wa_id d = conv_wa_id c \/ toNumber d = conv_wa_id c)
            /\ conv_lastMessageTime c = timestamp d
            /\ conv_isLastOutgoing c = isOutgoing d
            /\ conv_lastMessage c
               = (if text d =? "" then "No message" else text d)
            /\ Forall (fun d' =>
                         wa_id d' = conv_wa_id c \/ toNumber d' = conv_wa_id c ->
                         (timestamp d' <= timestamp d)%Z)
                      (docs w))
       (conversations_of (eval getConversations w)).
Proof.
  unfold eval. rewrite getConversations_eq. simpl.
  unfold conversations_of. simpl.
  split; [apply latest_first_sorted|].
  apply Forall_forall. intros c Hc.
  apply sort_by_In in Hc. apply summaries_In in Hc.
  destruct Hc as (waId & _ & E).
  rewrite buildConversationSummary_eq in E.
  destruct (hd_error _) as [d|] eqn:Hd; [|discriminate].
  injection E as <-. simpl.
  apply latest_is_head in Hd. destruct Hd as [Hin Hmax].
  apply filter_In in Hin. destruct Hin as [Hin Hconv].
  exists d. split; [exact Hin|].
  split; [apply in_conversation_true; exact Hconv|].
  repeat split.
  apply Forall_forall. intros d' Hd' Hc'.
  apply Hmax, filter_In. split; [exact Hd'|].
  apply in_conversation_true. exact Hc'.
Qed.

(** X8. The corner cases of a summary.  [buildConversationSummary]
    answers [null] exactly when no stored record has the id as [wa_id] or
    as [toNumber].  When the id has inbound records, the contact's name
    and phone number are those of one of them (['Unknown'] and the id for
    an empty one), whichever the store finds; with no inbound record (the
    id was only written to) the name is ['Unknown'] and the phone number
    is the id itself. *)
Theorem conversation_summary_corner_cases (w : World) (waId : string) :
  (eval (buildConversationSummary waId) w = None <->
   forall d, In d (docs w) -> wa_id d <> waId /\ toNumber d <> waId)
  /\ (forall c,
        eval (buildConversationSummary waId) w = Some c ->
        (forall d, In d (docs w) -> wa_id d = waId -> isOutgoing d = true) ->
        conv_contactName c = "Unknown" /\ conv_phoneNumber c = waId)
  /\ (forall c,
        eval (buildConversationSummary waId) w = Some c ->
        (exists d, In d (docs w) /\ wa_id d = waId /\ isOutgoing d = false) ->
        exists d,
          In d (docs w) /\ wa_id d = waId /\ isOutgoing d = false
          /\ conv_contactName c
             = (if contactName d =? "" then "Unknown" else contactName d)
          /\ conv_phoneNumber c
             = (if fromNumber d =? "" then waId else fromNumber d)).
Proof.
  rewrite buildConversationSummary_eq.
  split; [|split].
  - split.
    + intros H d Hd.
      destruct (sort_by Message.timestamp_desc
                  (filter (in_conversation waId) (docs w))) as [|x r] eqn:S;
        [|discriminate].
      assert (Hnot : ~ In d (filter (in_conversation waId) (docs w))).
      { intros Hin. apply (sort_by_In Message.timestamp_desc) in Hin.
        rewrite S in Hin. exact Hin. }
      rewrite filter_In, in_conversation_true in Hnot. tauto.
    + intros H.
      destruct (sort_by Message.timestamp_desc
                  (filter (in_conversation waId) (docs w))) as [|x r] eqn:S;
        [reflexivity|].
      exfalso.
      assert (Hin : In x (filter (in_conversation waId) (docs w))).
      { apply (sort_by_In Message.timestamp_desc). rewrite S.
        left. reflexivity. }
      rewrite filter_In, in_conversation_true in Hin.
      destruct Hin as [Hx Hc]. destruct (H x Hx). tauto.
  - intros c E Hout. destruct (hd_error _); [|discriminate].
    injection E as <-. simpl.
    assert (F : List.find (incoming_of waId) (docs w) = None).
    { destruct (List.find (incoming_of waId) (docs w)) as [x|] eqn:F;
        [|reflexivity].
      apply find_some in F. destruct F as [Hx Hi]. unfold incoming_of in Hi.
      apply andb_true_iff in Hi. destruct Hi as [Hw Ho].
      apply String.eqb_eq in Hw. rewrite (Hout x Hx Hw) in Ho. discriminate. }
    rewrite F. split; reflexivity.
  - intros c E (d0 & Hd0 & Hw0 & Ho0).
    destruct (hd_error _) as [last|]; [|discriminate].
    injection E as <-. simpl.
    destruct (List.find (incoming_of waId) (docs w)) as [d|] eqn:F.
    + apply find_some in F. destruct F as [Hd Hi]. unfold incoming_of in Hi.
      apply andb_true_iff in Hi. destruct Hi as [Hw Ho].
      apply String.eqb_eq in Hw. apply negb_true_iff in Ho.
      exists d. simpl. auto.
    + exfalso. apply (find_none _ _ F) in Hd0. unfold incoming_of in Hd0.
      rewrite Hw0, String.eqb_refl, Ho0 in Hd0. discriminate.
Qed.

Lemma conversation_summary_corner_cases_witness :
  eval (buildConversationSummary "+3333")
       (world [from_alice; to_bob; from_alice_renamed] None) = None
  /\ option_map conv_contactName
       (eval (buildConversationSummary "+2222")
             (world [from_alice; to_bob; from_alice_renamed] None))
     = Some "Unknown"
  /\ exists c,
      eval (buildConversationSummary "+1111")
           (world [from_alice; to_bob; from_alice_renamed] None) = Some c
      /\ (conv_contactName c = "Alice" \/ conv_contactName c = "Alice B.").
Proof.
  set (w := world [from_alice; to_bob; from_alice_renamed] None).
  split; [|split].
  - destruct (conversation_summary_corner_cases w "+3333") as [[_ H] _].
    apply H. intros d [<-|[<-|[<-|[]]]]; split; discriminate.
  - destruct (conversation_summary_corner_cases w "+2222") as (_ & H & _).
    destruct (eval (buildConversationSummary "+2222") w) as [c|] eqn:E;
      [|discriminate E].
    destruct (H c eq_refl) as [Hn _].
    + intros d [<-|[<-|[<-|[]]]]; discriminate.
    + simpl. rewrite Hn. reflexivity.
  - destruct (conversation_summary_corner_cases w "+1111") as (_ & _ & H).
    destruct (eval (buildConversationSummary "+1111") w) as [c|] eqn:E;
      [|discriminate E].
    exists c. split; [reflexivity|].
    destruct (H c eq_refl) as (x & Hx & _ & Ho & Hn & _).
    + exists from_alice. split; [left; reflexivity|]. split; reflexivity.
    + rewrite Hn.
      destruct Hx as [<-|[<-|[<-|[]]]]; simpl; auto. discriminate Ho.
Defined.

(** ** Sending and then listing *)

Lemma inbound_ids_outgoing (l : list Doc) (d : Doc) :
  isOutgoing d = true -> inbound_ids (l ++ [d]) = inbound_ids l.
Proof.
  intros Ho. unfold inbound_ids, incoming.
  rewrite filter_app. simpl. rewrite Ho. simpl. rewrite app_nil_r.
  reflexivity.
Qed.

(** X9. Sending never opens nor closes a conversation: after any call of
    [sendMessage] the inbound identities of the collection are the same,
    so the conversation list has the same ids; in particular a message
    sent to a contact who never wrote leaves the contact out of the
    list. *)
Theorem sendMessage_keeps_conversations (w : World)
        (waId text name : option string) :
  inbound_ids (docs (exec (sendMessage waId text name) w))
  = inbound_ids (docs w)
  /\ Permutation
       (map conv_wa_id
            (conversations_of
               (eval getConversations (exec (sendMessage waId text name) w))))
       (map conv_wa_id (conversations_of (eval getConversations w))).
Proof.
  assert (E : inbound_ids (docs (exec (sendMessage waId text name) w))
              = inbound_ids (docs w)).
  { destruct (sendMessage_cases w waId text name)
      as [S|(i & t & _ & _ & _ & _ & _ & S)]; rewrite S; [reflexivity|].
    apply inbound_ids_outgoing. reflexivity. }
  split; [exact E|].
  unfold eval. rewrite !getConversations_eq. unfold conversations_of. simpl.
  eapply perm_trans; [apply conversation_ids|].
  rewrite E. apply Permutation_sym, conversation_ids.
Qed.

Lemma insert_by_snoc {A} (le : A -> A -> bool) (y x : A) (s : list A) :
  le y x = true -> insert_by le y (s ++ [x]) = insert_by le y s ++ [x].
Proof.
  intros H. induction s as [|z r IH]; simpl.
  - rewrite H. reflexivity.
  - destruct (le y z); [reflexivity|]. rewrite IH. reflexivity.
Qed.

(** An element that none of the list precedes strictly stays last. *)
Lemma sort_by_snoc {A} (le : A -> A -> bool) (l : list A) (x : A) :
  (forall y, In y l -> le y x = true) ->
  sort_by le (l ++ [x]) = sort_by le l ++ [x].
Proof.
  induction l as [|y r IH]; intros H; [reflexivity|].
  change (insert_by le y (sort_by le (r ++ [x]))
          = insert_by le y (sort_by le r) ++ [x]).
  rewrite IH by (intros z Hz; apply H; right; exact Hz).
  apply insert_by_snoc, H. left. reflexivity.
Qed.

Lemma summaries_complete (senderIds : list string) (w : World) waId c :
  In waId senderIds ->
  eval (buildConversationSummary waId) w = Some c ->
  In c (eval (summaries senderIds) w).
Proof.
  induction senderIds as [|x r IH]; intros H E; [destruct H|].
  simpl. rewrite !eval_bind, buildConversationSummary_pure, summaries_pure.
  destruct H as [->|H].
  - rewrite E. unfold eval at 1. simpl. left. reflexivity.
  - specialize (IH H E).
    destruct (eval (buildConversationSummary x) w); unfold eval at 1; simpl;
      [right|]; exact IH.
Qed.

(** X10. A sent message closes its thread.  When [sendMessage] succeeds
    for a conversation id and the clock is ahead of every record of that
    conversation, the sent record, which carries the trimmed text, is the
    last element of the message list of the id, after the elements of the
    former list (the same records; the order of equal timestamps among
    them is the store's); and when the contact has written before, the
    conversation list shows the trimmed text as the last message of the
    conversation, marked outgoing. *)
Theorem sent_message_closes_thread (w : World) (i t : string)
        (name : option string) :
  Js.trim t <> "" -> i <> "" ->
  known (Some (next_messageId w)) (docs w) = false ->
  (forall d, In d (docs w) -> wa_id d = i \/ toNumber d = i ->
             (timestamp d < time w (S (reads w)))%Z) ->
  let w' := exec (sendMessage (Some i) (Some t) name) w in
  (exists former d,
      messages_of (eval (getMessages (Some i)) w') = former ++ [d]
      /\ Permutation former (messages_of (eval (getMessages (Some i)) w))
      /\ text d = Js.trim t /\ toNumber d = i /\ isOutgoing d = true
      /\ timestamp d = time w (S (reads w))
      /\ Forall (fun d' => (timestamp d' < timestamp d)%Z) former)
  /\ ((exists d, In d (docs w) /\ isOutgoing d = false /\ wa_id d = i) ->
      exists c,
        In c (conversations_of (eval getConversations w'))
        /\ conv_wa_id c = i /\ conv_lastMessage c = Js.trim t
        /\ conv_isLastOutgoing c = true
        /\ conv_lastMessageTime c = time w (S (reads w))).
Proof.
  intros Ht Hi K Hclock w'.
  pose proof (sendMessage_valid w i t name Ht Hi) as Hs. simpl in Hs.
  rewrite K in Hs. destruct Hs as [_ Hs]. fold w' in Hs.
  set (d := mkDoc (next_messageId w) "business" (Js.trim t) "text"
                  (Js.or_default (BUSINESS_PHONE_NUMBER w) "+1234567890") i
                  "You" (time w (S (reads w))) true "sent"
                  (time w (S (S (reads w)))) (time w (S (S (reads w))))) in *.
  assert (Hi' : (i =? "") = false) by (apply String.eqb_neq; exact Hi).
  assert (F : filter (in_conversation i) (docs w')
              = filter (in_conversation i) (docs w) ++ [d]).
  { rewrite Hs, filter_app. simpl. unfold in_conversation at 2. simpl.
    rewrite String.eqb_refl, orb_true_r. reflexivity. }
  split.
  - exists (messages_of (eval (getMessages (Some i)) w)), d.
    unfold eval, getMessages, messages_of, bind, Message.find_sorted. simpl.
    rewrite Hi'. simpl. rewrite F.
    split; [|split; [apply Permutation_refl|repeat split]].
    + apply sort_by_snoc. intros y Hy. apply filter_In in Hy.
      destruct Hy as [Hy Hc]. apply in_conversation_true in Hc.
      unfold Message.timestamp_asc. apply Z.leb_le. simpl.
      apply Z.lt_le_incl, Hclock; assumption.
    + apply Forall_forall. intros y Hy. apply sort_by_In, filter_In in Hy.
      destruct Hy as [Hy Hc]. apply in_conversation_true in Hc.
      simpl. apply Hclock; assumption.
  - intros (d0 & Hd0 & Ho0 & Hw0).
    assert (Hhead : hd_error (sort_by Message.timestamp_desc
                                (filter (in_conversation i) (docs w')))
                    = Some d).
    { destruct (hd_error _) as [z|] eqn:Hz.
      - apply latest_is_head in Hz. destruct Hz as [Hin Hmax].
        rewrite F in Hin, Hmax. apply in_app_or in Hin.
        destruct Hin as [Hin|[<-|[]]]; [|reflexivity].
        exfalso. apply filter_In in Hin. destruct Hin as [Hin Hc].
        apply in_conversation_true in Hc.
        specialize (Hclock z Hin Hc).
        assert (Hle : (timestamp d <= timestamp z)%Z).
        { apply Hmax, in_or_app. right. left. reflexivity. }
        simpl in Hle. lia.
      - exfalso.
        assert (Hin : In d (sort_by Message.timestamp_desc
                              (filter (in_conversation i) (docs w')))).
        { apply sort_by_In. rewrite F. apply in_or_app. right. left.
          reflexivity. }
        destruct (sort_by _ _); [destruct Hin|discriminate]. }
    pose proof (buildConversationSummary_eq i w') as B.
    rewrite Hhead in B.
    match type of B with _ = Some ?c => exists c end.
    split; [|split; [reflexivity|]].
    + unfold eval at 1. rewrite getConversations_eq.
      unfold conversations_of. simpl.
      apply sort_by_In. eapply summaries_complete; [|exact B].
      apply inbound_ids_In. exists d0. rewrite Hs.
      split; [apply in_or_app; left; exact Hd0|]. auto.
    + simpl. apply String.eqb_neq in Ht. rewrite Ht. repeat split.
Qed.

Lemma sent_message_closes_thread_witness :
  (exists former d,
      messages_of
        (eval (getMessages (Some "+1111"))
              (exec (sendMessage (Some "+1111") (Some " hello ") None)
                    (world [from_alice; tie_a; tie_b] None)))
      = former ++ [d]
      /\ List.length former = 3%nat
      /\ text d = "hello")
  /\ exists c,
      In c (conversations_of
              (eval getConversations
                    (exec (sendMessage (Some "+1111") (Some " hello ") None)
                          (world [from_alice; tie_a; tie_b] None))))
      /\ conv_wa_id c = "+1111" /\ conv_lastMessage c = "hello"
      /\ conv_isLastOutgoing c = true.
Proof.
  destruct (sent_message_closes_thread (world [from_alice; tie_a; tie_b] None)
              "+1111" " hello " None) as [Hlist Hsummary];
    [discriminate|discriminate|reflexivity| |].
  { intros d [<-|[<-|[<-|[]]]] _; simpl; lia. }
  split.
  - destruct Hlist as (former & d & E & P & Ht & _).
    exists former, d. split; [exact E|]. split; [|exact Ht].
    rewrite (Permutation_length P). reflexivity.
  - destruct Hsummary as (c & Hc & Hw & Hl & Ho & _).
    + exists from_alice. split; [left; reflexivity|]. split; reflexivity.
    + exists c. auto.
Defined.

(** ** The last status entry wins *)

Lemma last_status_none sts d : forall acc,
  (forall st, In st sts -> applies st d = false) ->
  last_status sts d acc = acc.
Proof.
  unfold last_status. induction sts as [|st r IH]; intros acc H; [reflexivity|].
  simpl. rewrite (H st (or_introl eq_refl)).
  apply IH. intros x Hx. apply H. right. exact Hx.
Qed.

Lemma last_status_last before st after d acc :
  applies st d = true ->
  (forall x, In x after -> applies x d = false) ->
  last_status (before ++ st :: after) d acc = Some (st_status st).
Proof.
  intros Hst Hafter. unfold last_status. rewrite fold_left_app. simpl.
  rewrite Hst. apply (last_status_none after d). exact Hafter.
Qed.

Lemma Forall2_with_map {A B} (R : A -> A -> Prop) (f g : A -> B) l l' :
  Forall2 R l l' -> map f l' = map g l ->
  Forall2 (fun a b => R a b /\ f b = g a) l l'.
Proof.
  induction 1 as [|a b r r' Hab H IH]; intros E; [constructor|].
  simpl in E. injection E as E1 E2. constructor; auto.
Qed.

Lemma settle_status (sts : list StatusEntry) (d : Doc) :
  status (settle sts d)
  = match last_status sts d None with
    | Some s => s
    | None => status d
    end.
Proof.
  pose proof (settle_last_status sts d None) as E. simpl in E.
  fold (settle sts d) in E. rewrite E.
  destruct (last_status sts d None); reflexivity.
Qed.

(** X11. Within a list of status entries the last one wins.  On a
    collection that satisfies the unique index, after
    [processStatusUpdates] every record is at its place with the same
    paths but [status] and [updatedAt]; its status is the one of the last
    entry of the list that designates it (by a non-empty [id], or by
    [meta_msg_id] when [id] is absent or empty), and is unchanged when no
    entry designates it. *)
Theorem last_status_entry_wins (w : World) (sts : list StatusEntry) :
  unique_ids (docs w) ->
  Forall2
    (fun d d' =>
       same_but_status d d'
       /\ ((forall st, In st sts -> applies st d = false) ->
           status d' = status d)
       /\ (forall before st after,
             sts = before ++ st :: after ->
             applies st d = true ->
             (forall x, In x after -> applies x d = false) ->
             status d' = st_status st))
    (docs w) (docs (exec (processStatusUpdates sts) w)).
Proof.
  intros U.
  assert (E : map status (docs (exec (processStatusUpdates sts) w))
              = map (fun d => status (settle sts d)) (docs w)).
  { pose proof (processStatusUpdates_content sts w U) as C.
    apply (f_equal (map status)) in C. rewrite !map_map in C. exact C. }
  pose proof (Forall2_with_map _ _ _ _ _
                (processStatusUpdates_frame sts w) E) as F.
  eapply Forall2_impl; [|exact F].
  intros d d' [Hs Hst]. simpl in Hst. rewrite settle_status in Hst.
  split; [exact Hs|]. split.
  - intros Hnone. rewrite (last_status_none sts d None Hnone) in Hst.
    exact Hst.
  - intros before st after -> Ha Hafter.
    rewrite (last_status_last before st after d None Ha Hafter) in Hst.
    exact Hst.
Qed.

Lemma last_status_entry_wins_witness :
  unique_ids [from_alice; stored_m1]
  /\ Forall2
       (fun d d' =>
          same_but_status d d'
          /\ ((forall st, In st [delivered_receipt; read_receipt] ->
                          applies st d = false) ->
              status d' = status d)
          /\ (forall before st after,
                [delivered_receipt; read_receipt] = before ++ st :: after ->
                applies st d = true ->
                (forall x, In x after -> applies x d = false) ->
                status d' = st_status st))
       [from_alice; stored_m1]
       (docs (exec (processStatusUpdates [delivered_receipt; read_receipt])
                   (world [from_alice; stored_m1] None))).
Proof.
  assert (U : unique_ids [from_alice; stored_m1]).
  { repeat constructor; simpl; intuition discriminate. }
  split; [exact U|].
  exact (last_status_entry_wins (world [from_alice; stored_m1] None)
           [delivered_receipt; read_receipt] U).
Defined.

(** ** Processing the folder again *)

Lemma extends_ids (l l' : list Doc) :
  extends l l' -> exists more, ids l' = ids l ++ more.
Proof.
  intros (kept & added & -> & F). exists (ids added).
  unfold ids. rewrite map_app. f_equal.
  symmetry. apply Forall2_map_eq.
  eapply Forall2_impl; [|exact F]. intros a b (E & _). symmetry. exact E.
Qed.

Lemma extends_known (l l' : list Doc) (id : option string) :
  extends l l' -> known id l = true -> known id l' = true.
Proof.
  intros X K. destruct (extends_ids _ _ X) as (more & E).
  rewrite known_ids in *. rewrite E, existsb_app, K. reflexivity.
Qed.

Lemma processWebhookFile_env (file : option WebhookData) (w : World) :
  BUSINESS_PHONE_NUMBER (exec (processWebhookFile file) w)
  = BUSINESS_PHONE_NUMBER w.
Proof.
  destruct file as [data|]; [|reflexivity].
  destruct (eval (extractWebhookData data) w) as [info|] eqn:E.
  - rewrite (processWebhookFile_batch _ _ _ E).
    rewrite processStatusUpdates_env. apply processMessages_env.
  - rewrite (processWebhookFile_skip _ _ E). reflexivity.
Qed.

Lemma processAllWebhookFiles_env files : forall w,
  BUSINESS_PHONE_NUMBER (exec (processAllWebhookFiles files) w)
  = BUSINESS_PHONE_NUMBER w.
Proof.
  induction files as [|file files IH]; intros w; [reflexivity|].
  rewrite processAllWebhookFiles_cons, IH. apply processWebhookFile_env.
Qed.

(** After a run over the files every valid entry of theirs is known. *)
Lemma processAllWebhookFiles_covers files : forall w,
  all_entries_known files (exec (processAllWebhookFiles files) w).
Proof.
  induction files as [|file files IH]; intros w;
    intros data info m entry_data Hin E Hm Hc V; [destruct Hin|].
  rewrite processAllWebhookFiles_cons in *.
  destruct Hin as [->|Hin]; [|eapply IH; eassumption].
  assert (E0 : eval (extractWebhookData data) w = Some info).
  { rewrite <- E. apply extractWebhookData_env.
    rewrite processAllWebhookFiles_env, processWebhookFile_env. reflexivity. }
  apply (extends_known (docs (exec (processWebhookFile (Some data)) w)));
    [apply processAllWebhookFiles_extends|].
  rewrite (processWebhookFile_batch _ _ _ E0).
  rewrite (known_ids_eq _ _ _ (processStatusUpdates_ids _ _)).
  eapply processMessages_covers; eassumption.
Qed.

Lemma all_entries_known_eq files (w w' : World) :
  BUSINESS_PHONE_NUMBER w = BUSINESS_PHONE_NUMBER w' ->
  ids (docs w) = ids (docs w') ->
  all_entries_known files w -> all_entries_known files w'.
Proof.
  intros Eenv Eids H data info m entry_data Hin E Hm Hc V.
  rewrite <- (known_ids_eq _ _ _ Eids).
  eapply H; try eassumption.
  rewrite <- E. apply extractWebhookData_env. exact Eenv.
Qed.

Lemma all_statuses_env files (w w' : World) :
  BUSINESS_PHONE_NUMBER w = BUSINESS_PHONE_NUMBER w' ->
  all_statuses files w = all_statuses files w'.
Proof.
  intros E. unfold all_statuses. apply flat_map_ext. intros [data|]; [|reflexivity].
  rewrite (extractWebhookData_env data w w' E). reflexivity.
Qed.

Lemma processStatusUpdates_app sts1 sts2 : forall w,
  exec (processStatusUpdates (sts1 ++ sts2)) w
  = exec (processStatusUpdates sts2) (exec (processStatusUpdates sts1) w).
Proof.
  induction sts1 as [|st r IH]; intros w; [reflexivity|].
  rewrite <- app_comm_cons, !processStatusUpdates_cons. apply IH.
Qed.

(** Over files whose valid entries are all known, a run only applies the
    status entries. *)
Lemma processAllWebhookFiles_settled files : forall w,
  all_entries_known files w ->
  exec (processAllWebhookFiles files) w
  = exec (processStatusUpdates (all_statuses files w)) w.
Proof.
  induction files as [|file files IH]; intros w H; [reflexivity|].
  rewrite processAllWebhookFiles_cons.
  assert (Hstep : exec (processWebhookFile file) w
                  = exec (processStatusUpdates
                            (all_statuses [file] w)) w).
  { destruct file as [data|]; [|reflexivity].
    unfold all_statuses. cbn [flat_map]. rewrite app_nil_r.
    destruct (eval (extractWebhookData data) w) as [info|] eqn:E.
    - rewrite (processWebhookFile_batch _ _ _ E). f_equal.
      apply processMessages_noop. intros m entry_data Hm Hc V.
      eapply H; try eassumption. left. reflexivity.
    - apply (processWebhookFile_skip _ _ E). }
  assert (Hrest : all_entries_known files (exec (processWebhookFile file) w)).
  { apply (all_entries_known_eq files w).
    - symmetry. apply processWebhookFile_env.
    - rewrite Hstep. symmetry. apply processStatusUpdates_ids.
    - intros data info m entry_data Hin. apply H. right. exact Hin. }
  rewrite (IH _ Hrest).
  rewrite (all_statuses_env files _ w (processWebhookFile_env file w)).
  rewrite Hstep at 1.
  assert (Happ : all_statuses (file :: files) w
                 = all_statuses [file] w ++ all_statuses files w).
  { unfold all_statuses. cbn [flat_map]. rewrite app_nil_r. reflexivity. }
  rewrite Happ. symmetry. apply processStatusUpdates_app.
Qed.

(** X12. Processing the same folder again converges.  On a collection
    that satisfies the unique index, a second run over the same files
    stores no new record and changes no path but [status] and [updatedAt]
    (a status entry read before its message was stored applies now), and
    from the third run on nothing changes but [updatedAt]. *)
Theorem reprocessing_converges (w : World)
        (files : list (option WebhookData)) :
  unique_ids (docs w) ->
  let w1 := exec (processAllWebhookFiles files) w in
  let w2 := exec (processAllWebhookFiles files) w1 in
  let w3 := exec (processAllWebhookFiles files) w2 in
  Forall2 same_but_status (docs w1) (docs w2)
  /\ map content (docs w3) = map content (docs w2).
Proof.
  intros U w1 w2 w3.
  assert (U1 : unique_ids (docs w1))
    by (apply processAllWebhookFiles_unique, U).
  assert (K1 : all_entries_known files w1)
    by apply processAllWebhookFiles_covers.
  assert (E2 : w2 = exec (processStatusUpdates (all_statuses files w1)) w1)
    by (apply processAllWebhookFiles_settled, K1).
  assert (Env : BUSINESS_PHONE_NUMBER w1 = BUSINESS_PHONE_NUMBER w2).
  { rewrite E2. symmetry. apply processStatusUpdates_env. }
  assert (K2 : all_entries_known files w2).
  { apply (all_entries_known_eq files w1); [exact Env| |exact K1].
    rewrite E2. symmetry. apply processStatusUpdates_ids. }
  assert (E3 : w3 = exec (processStatusUpdates (all_statuses files w1)) w2).
  { unfold w3. rewrite (processAllWebhookFiles_settled _ _ K2).
    rewrite (all_statuses_env files w2 w1) by (symmetry; exact Env).
    reflexivity. }
  split.
  - rewrite E2. apply processStatusUpdates_frame.
  - rewrite E3.
    apply (processStatusUpdates_twice (all_statuses files w1) w1 w2 U1).
    rewrite E2. reflexivity.
Qed.

Lemma reprocessing_converges_witness :
  map status
      (docs (exec (processAllWebhookFiles
                     [Some (document early_receipt);
                      Some (document (scenario (Some "+9999")))])
                  (world [] None)))
  = ["received"]
  /\ map content
         (docs (exec (processAllWebhookFiles
                        [Some (document early_receipt);
                         Some (document (scenario (Some "+9999")))])
                     (exec (processAllWebhookFiles
                              [Some (document early_receipt);
                               Some (document (scenario (Some "+9999")))])
                           (exec (processAllWebhookFiles
                                    [Some (document early_receipt);
                                     Some (document (scenario (Some "+9999")))])
                                 (world [] None)))))
     = map content
           (docs (exec (processAllWebhookFiles
                          [Some (document early_receipt);
                           Some (document (scenario (Some "+9999")))])
                       (exec (processAllWebhookFiles
                                [Some (document early_receipt);
                                 Some (document (scenario (Some "+9999")))])
                             (world [] None)))).
Proof.
  destruct (reprocessing_converges
              (world [] None)
              [Some (document early_receipt);
               Some (document (scenario (Some "+9999")))]) as [_ H].
  { constructor. }
  split; [reflexivity|exact H].
Defined.

Example reprocessing_applies_early_receipt :
  map status
      (docs (exec (processAllWebhookFiles
                     [Some (document early_receipt);
                      Some (document (scenario (Some "+9999")))])
                  (exec (processAllWebhookFiles
                           [Some (document early_receipt);
                            Some (document (scenario (Some "+9999")))])
                        (world [] None))))
  = ["read"].
Proof. reflexivity. Qed.

(** * Properties of the client *)

(** ** Grouping the messages of a thread by date *)

Lemma distinct_neighbours_replace_last (l : list Group) (a a' : Group) :
  group_date a' = group_date a ->
  distinct_neighbours (l ++ [a]) -> distinct_neighbours (l ++ [a']).
Proof.
  intros E. induction l as [|x l IH]; intros H; [exact I|].
  destruct l as [|y l]; simpl in *.
  - rewrite E. exact H.
  - destruct H as [Hxy H]. split; [exact Hxy|]. apply IH, H.
Qed.

Lemma distinct_neighbours_snoc (l : list Group) (a b : Group) :
  group_date a <> group_date b ->
  distinct_neighbours (l ++ [a]) -> distinct_neighbours ((l ++ [a]) ++ [b]).
Proof.
  intros E. induction l as [|x l IH]; intros H; simpl.
  - split; [exact E|exact I].
  - destruct l as [|y l]; simpl in *.
    + destruct H as [Hxa _]. repeat split; assumption.
    + destruct H as [Hxy H]. split; [exact Hxy|]. apply IH, H.
Qed.

Lemma closed_messages groups cd cg :
  List.concat (map group_messages (closed groups cd cg))
  = List.concat (map group_messages groups) ++ cg.
Proof.
  unfold closed. destruct cg as [|m r]; [symmetry; apply app_nil_r|].
  rewrite map_app, concat_app. simpl. rewrite app_nil_r. reflexivity.
Qed.

Lemma closed_dated groups cd cg :
  List.concat (map (fun g => dated (group_date g) (group_messages g))
                   (closed groups cd cg))
  = List.concat (map (fun g => dated (group_date g) (group_messages g))
                     groups)
    ++ dated cd cg.
Proof.
  unfold closed. destruct cg as [|m r]; [symmetry; apply app_nil_r|].
  rewrite map_app, concat_app. simpl. rewrite app_nil_r. reflexivity.
Qed.

Lemma grouping_invariant_closed groups cd cg :
  grouping_invariant groups cd cg ->
  Forall proper_group (closed groups cd cg)
  /\ distinct_neighbours (closed groups cd cg).
Proof.
  unfold closed.
  intros [(-> & -> & _)|(Hcg & _ & Hp & Hd)]; [split; constructor|].
  destruct cg as [|m r]; [contradiction|]. split; assumption.
Qed.

Section GroupingProperties.

Variable date_label : Z -> Z -> string.

Lemma formatMessageDate_pure_docs (ts : Z) (w : World) :
  docs (exec (ChatWindow.formatMessageDate date_label ts) w) = docs w.
Proof.
  unfold ChatWindow.formatMessageDate. destruct (ts =? 0)%Z; reflexivity.
Qed.

(** One turn of the loop keeps the invariant and adds the message. *)
Lemma grouping_step groups cd cg (label : string) (message : Doc) :
  grouping_invariant groups cd cg ->
  if negb (Js.strict_eq (Some label) cd)
  then grouping_invariant (closed groups cd cg) (Some label) [message]
  else grouping_invariant groups cd (cg ++ [message]).
Proof.
  intros H. destruct (Js.strict_eq (Some label) cd) eqn:E; simpl.
  - apply strict_eq_true in E. subst cd.
    destruct H as [(_ & _ & H)|(Hcg & Hcd & Hp & Hd)]; [discriminate|].
    right. split; [destruct cg; discriminate|]. split; [exact Hcd|]. split.
    + apply Forall_app in Hp. destruct Hp as [Hp _].
      apply Forall_app. split; [exact Hp|].
      constructor; [|constructor]. split; simpl; [discriminate|].
      destruct cg; discriminate.
    + eapply distinct_neighbours_replace_last; [|exact Hd]. reflexivity.
  - right. split; [discriminate|]. split; [discriminate|].
    assert (Hnew : proper_group (mkGroup (Some label) [message]))
      by (split; discriminate).
    destruct H as [(-> & -> & ->)|(Hcg & Hcd & Hp & Hd)]; simpl.
    + split; [repeat constructor; discriminate|exact I].
    + unfold closed. destruct cg as [|m r]; [contradiction|]. split.
      * apply Forall_app. split; [exact Hp|]. constructor; [exact Hnew|constructor].
      * apply distinct_neighbours_snoc; [|exact Hd]. simpl.
        intros ->. rewrite (proj2 (strict_eq_true _ _) eq_refl) in E.
        discriminate.
Qed.

Lemma labelled_cons (message : Doc) (rest : list (option Doc)) (w : World) :
  eval (labelled date_label (Some message :: rest)) w
  = (message,
     Some (eval (ChatWindow.formatMessageDate date_label (timestamp message))
                w))
    :: eval (labelled date_label rest)
            (exec (ChatWindow.formatMessageDate date_label (timestamp message))
                  w).
Proof.
  cbn [labelled]. rewrite !eval_bind. reflexivity.
Qed.

Lemma groupMessages_loop_spec (messages : list (option Doc)) :
  forall groups cd cg w,
    grouping_invariant groups cd cg ->
    let '(groups', cd', cg') :=
      eval (ChatWindow.groupMessages_loop date_label messages groups cd cg) w
    in
    grouping_invariant groups' cd' cg'
    /\ List.concat (map group_messages groups') ++ cg'
       = (List.concat (map group_messages groups) ++ cg) ++ objects messages
    /\ List.concat (map (fun g => dated (group_date g) (group_messages g))
                        groups')
       ++ dated cd' cg'
       = (List.concat (map (fun g => dated (group_date g) (group_messages g))
                           groups)
          ++ dated cd cg)
         ++ eval (labelled date_label messages) w.
Proof.
  induction messages as [|[message|] rest IH]; intros groups cd cg w H.
  - simpl. split; [exact H|]. split; symmetry; apply app_nil_r.
  - cbn [ChatWindow.groupMessages_loop]. rewrite eval_bind, labelled_cons.
    set (label := eval (ChatWindow.formatMessageDate date_label
                                                     (timestamp message)) w).
    set (w1 := exec (ChatWindow.formatMessageDate date_label
                                                  (timestamp message)) w).
    pose proof (grouping_step groups cd cg label message H) as Hstep.
    change (objects (Some message :: rest)) with ([message] ++ objects rest).
    destruct (Js.strict_eq (Some label) cd) eqn:Eq; cbn [negb] in *.
    + apply strict_eq_true in Eq.
      specialize (IH groups cd (cg ++ [message]) w1 Hstep).
      destruct (eval (ChatWindow.groupMessages_loop date_label rest _ _ _) w1)
        as [[groups' cd'] cg'].
      destruct IH as (Hinv & Hcat & Hdat). split; [exact Hinv|]. split.
      * rewrite Hcat, <- !app_assoc. reflexivity.
      * rewrite Hdat. unfold dated. rewrite map_app, <- !app_assoc.
        simpl. rewrite <- Eq. reflexivity.
    + specialize (IH (closed groups cd cg) (Some label) [message] w1 Hstep).
      unfold closed in IH at 1.
      destruct (eval (ChatWindow.groupMessages_loop date_label rest _ _ _) w1)
        as [[groups' cd'] cg'].
      destruct IH as (Hinv & Hcat & Hdat). split; [exact Hinv|]. split.
      * rewrite Hcat, closed_messages, <- !app_assoc. reflexivity.
      * rewrite Hdat, closed_dated, <- !app_assoc. reflexivity.
  - cbn [ChatWindow.groupMessages_loop labelled]. apply IH, H.
Qed.

(** X13. Grouping a thread by date loses nothing and splits exactly where
    the date label changes.  The messages of the groups, read in order,
    are exactly the messages of the thread that are objects, in their
    order; every message is in a group whose date is the label that
    [formatMessageDate] gave for it; every group has at least one
    message; and no two neighbouring groups carry the same date.  So the
    groups are the maximal runs of messages with one label. *)
Theorem groupMessagesByDate_partitions (messages : list (option Doc))
        (w : World) :
  List.concat (map group_messages
              (eval (ChatWindow.groupMessagesByDate date_label messages) w))
  = objects messages
  /\ List.concat
       (map (fun g => dated (group_date g) (group_messages g))
            (eval (ChatWindow.groupMessagesByDate date_label messages) w))
     = eval (labelled date_label messages) w
  /\ Forall proper_group
            (eval (ChatWindow.groupMessagesByDate date_label messages) w)
  /\ distinct_neighbours
       (eval (ChatWindow.groupMessagesByDate date_label messages) w).
Proof.
  unfold ChatWindow.groupMessagesByDate. rewrite eval_bind.
  pose proof (groupMessages_loop_spec messages [] None [] w) as H.
  destruct (eval (ChatWindow.groupMessages_loop date_label messages [] None [])
                 w) as [[groups cd] cg].
  destruct H as (Hinv & Hcat & Hdat); [left; auto|].
  unfold eval at 1. unfold eval at 1. unfold eval at 1.
  unfold eval at 1. simpl.
  fold (closed groups cd cg).
  rewrite closed_messages, closed_dated.
  split; [exact Hcat|]. split; [exact Hdat|].
  apply grouping_invariant_closed, Hinv.
Qed.

End GroupingProperties.

(** With a label that changes at every reading of the clock each message
    is a group of its own. *)
Example grouping_by_reading :
  map (fun g => (group_date g, map messageId (group_messages g)))
      (eval (ChatWindow.groupMessagesByDate
               reading_of [Some day_one_a; Some day_one_b])
            (world [] None))
  = [(Some "1700000000000", ["d1"]); (Some "1700000000001", ["d2"])].
Proof. reflexivity. Qed.

Example grouping_two_days :
  map (fun g => (group_date g, map messageId (group_messages g)))
      (eval (ChatWindow.groupMessagesByDate
               day_of [Some day_one_a; None; Some day_one_b; Some day_two])
            (world [] None))
  = [(Some "1", ["d1"; "d2"]); (Some "2", ["d3"])].
Proof. reflexivity. Qed.

(** ** Sorting the conversation list again *)

Lemma sort_by_sorted_same {A} (le : A -> A -> bool) (l : list A) :
  StronglySorted (fun a b => le a b = true) l -> sort_by le l = l.
Proof.
  induction 1 as [|x r Hs IH Hall]; [reflexivity|].
  change (insert_by le x (sort_by le r) = x :: r). rewrite IH.
  destruct r as [|y r']; [reflexivity|]. simpl.
  rewrite Forall_forall in Hall. rewrite (Hall y (or_introl eq_refl)).
  reflexivity.
Qed.

Lemma not_after_dates (a b : Summary) :
  (conv_lastMessageTime b <= conv_lastMessageTime a)%Z ->
  App.not_after a b = true.
Proof.
  intros H. unfold App.not_after.
  destruct (App.Date_of (conv_lastMessageTime b)) as [|tb] eqn:Eb;
    [reflexivity|].
  destruct (App.Date_of (conv_lastMessageTime a)) as [|ta] eqn:Ea;
    [reflexivity|].
  unfold App.Date_of in *.
  destruct (_ && _) in Eb; [|discriminate].
  destruct (_ && _) in Ea; [|discriminate].
  injection Eb as <-. injection Ea as <-.
  apply negb_true_iff, Z.ltb_ge. lia.
Qed.

(** X14. The client's sort keeps the server's order.  When every stored
    timestamp is in the range of dates (the comparator is then a
    consistent order), the list that [getConversations] answers is already
    what [sortConversationsByTime] makes of it: the sidebar shows the
    conversations as the server ordered them, latest first, equal times in
    the server's order. *)
Theorem client_sort_keeps_server_order (w : World) :
  Forall (fun d => App.Date_of (timestamp d) = Js.Num (timestamp d)) (docs w) ->
  App.sortConversationsByTime (conversations_of (eval getConversations w))
  = conversations_of (eval getConversations w).
Proof.
  intros _.
  unfold App.sortConversationsByTime. apply sort_by_sorted_same.
  unfold eval. rewrite getConversations_eq. unfold conversations_of. simpl.
  pose proof (latest_first_sorted (eval (summaries (inbound_ids (docs w))) w))
    as H.
  induction H as [|x r Hs IH Hall]; constructor; [exact IH|].
  eapply Forall_impl; [|exact Hall].
  intros a Ha. apply not_after_dates, Ha.
Qed.

Lemma client_sort_keeps_server_order_witness :
  App.sortConversationsByTime
    (conversations_of
       (eval getConversations
             (world [from_carol; from_alice; to_bob; from_dave;
                     from_alice_renamed] None)))
  = conversations_of
      (eval getConversations
            (world [from_carol; from_alice; to_bob; from_dave;
                    from_alice_renamed] None))
  /\ map (fun c => (conv_wa_id c, conv_lastMessageTime c))
         (conversations_of
            (eval getConversations
                  (world [from_carol; from_alice; to_bob; from_dave;
                          from_alice_renamed] None)))
     = [("+1111", 3000000%Z); ("+3333", 2000000%Z); ("+4444", 2000000%Z)].
Proof.
  split; [|reflexivity].
  apply (client_sort_keeps_server_order
           (world [from_carol; from_alice; to_bob; from_dave;
                   from_alice_renamed] None)).
  repeat constructor.
Defined.

(** ** From a webhook entry to the lists *)

Lemma saveMessage_keeps_unknown (data : MessageData) (w : World)
      (id : option string) :
  known id (docs w) = false -> data_messageId data <> id ->
  known id (docs (exec (saveMessage data) w)) = false.
Proof.
  intros K Hne.
  destruct (saveMessage_docs data w) as [S|(_ & _ & d & C & S)]; rewrite S;
    [exact K|].
  rewrite known_app, K. simpl. unfold Message.by_messageId.
  apply cast_messageId in C. rewrite <- C.
  destruct (Js.strict_eq (data_messageId data) id) eqn:E; [|reflexivity].
  apply strict_eq_true in E. contradiction.
Qed.

Lemma created_messageId m v bn data :
  createMessageFromWebhook m v bn = Some data -> data_messageId data = msg_id m.
Proof.
  unfold createMessageFromWebhook.
  destruct (Js.truthy _ && _); intros E; injection E as <-; reflexivity.
Qed.

(** The first entry of a batch with a new [messageId] is stored if it is
    valid. *)
Lemma processMessages_stores before m after v bn data : forall w,
  (forall x, In x before -> msg_id x <> msg_id m) ->
  known (msg_id m) (docs w) = false ->
  createMessageFromWebhook m v bn = Some data ->
  acceptable data = true ->
  exists d now,
    Message.cast data now = Some d
    /\ In d (docs (exec (processMessages (before ++ m :: after) v bn) w)).
Proof.
  induction before as [|x before IH]; intros w Hbefore K E V.
  - simpl. rewrite (processMessages_cons _ _ _ _ _ _ E).
    destruct (processMessages_extends after v bn (exec (saveMessage data) w))
      as (added & -> & _).
    destruct (acceptable_cast data (time w (reads w)) V) as [d C].
    exists d, (time w (reads w)). split; [exact C|].
    apply in_or_app. left.
    unfold exec. rewrite saveMessage_eq.
    rewrite (created_messageId _ _ _ _ E), K, V, C. simpl.
    apply in_or_app. right. left. reflexivity.
  - destruct (create_total x v bn) as [dx Ex].
    rewrite <- app_comm_cons, (processMessages_cons _ _ _ _ _ _ Ex).
    apply IH; [intros y Hy; apply Hbefore; right; exact Hy| |exact E|exact V].
    apply saveMessage_keeps_unknown; [exact K|].
    rewrite (created_messageId _ _ _ _ Ex).
    apply Hbefore. left. reflexivity.
Qed.

(** X15. From a webhook entry to the lists.  When a document is ingested,
    the first of its message entries with a [messageId] that the
    collection does not know, if it passes the schema and is inbound,
    opens or joins the conversation of its resolved contact: afterwards
    that contact is in the conversation list and the message is in the
    contact's message list. *)
Theorem ingested_inbound_message_is_listed (w : World) (data : WebhookData)
        (info : WebhookInfo) before m after entry_data (waId : string) :
  eval (extractWebhookData data) w = Some info ->
  entries info = before ++ m :: after ->
  (forall x, In x before -> msg_id x <> msg_id m) ->
  known (msg_id m) (docs w) = false ->
  createMessageFromWebhook m (info_value info) (info_businessNumber info)
  = Some entry_data ->
  acceptable entry_data = true ->
  data_isOutgoing entry_data = false ->
  data_wa_id entry_data = Some waId ->
  let w' := exec (processWebhookFile (Some data)) w in
  In waId (map conv_wa_id (conversations_of (eval getConversations w')))
  /\ exists d,
      In d (messages_of (eval (getMessages (Some waId)) w'))
      /\ msg_id m = Some (messageId d)
      /\ text d = data_text entry_data.
Proof.
  intros E Hentries Hbefore K Hc V Ho Hw w'.
  destruct (processMessages_stores before m after (info_value info)
              (info_businessNumber info) entry_data w Hbefore K Hc V)
    as (d1 & now & C & Hd1).
  rewrite <- Hentries in Hd1.
  assert (Hd : exists d, In d (docs w') /\ same_but_status d1 d).
  { unfold w'. rewrite (processWebhookFile_batch _ _ _ E).
    pose proof (processStatusUpdates_frame
                  (status_entries info)
                  (exec (processMessages (entries info) (info_value info)
                                         (info_businessNumber info)) w)) as F.
    revert Hd1 F. generalize (docs (exec (processStatusUpdates
                                            (status_entries info))
                                         (exec (processMessages (entries info)
                                                  (info_value info)
                                                  (info_businessNumber info))
                                               w))).
    generalize (docs (exec (processMessages (entries info) (info_value info)
                                            (info_businessNumber info)) w)).
    intros l l' Hin F. induction F as [|a b r r' Hab F IH]; [destruct Hin|].
    destruct Hin as [->|Hin].
    - exists b. split; [left; reflexivity|exact Hab].
    - destruct (IH Hin) as (x & Hx & Hs). exists x. split; [right|]; assumption. }
  destruct Hd as (d & Hd & Hs).
  assert (Hfields : wa_id d1 = waId /\ isOutgoing d1 = false
                    /\ Some (messageId d1) = msg_id m
                    /\ text d1 = data_text entry_data).
  { rewrite <- (created_messageId _ _ _ _ Hc).
    unfold Message.cast in C.
    destruct (data_messageId entry_data) as [i|]; [|discriminate].
    rewrite Hw in C.
    destruct (data_fromNumber entry_data) as [f|]; [|discriminate].
    destruct (data_toNumber entry_data) as [t|]; [|discriminate].
    destruct (data_timestamp entry_data) as [|ts]; [discriminate|].
    injection C as <-. simpl. auto. }
  destruct Hfields as (Hw1 & Ho1 & Hi1 & Ht1).
  destruct Hs as (Si & Sw & St & _ & _ & _ & _ & _ & So & _).
  assert (Hne : waId <> "").
  { apply acceptable_paths in V. destruct V as (_ & V & _).
    rewrite Hw in V. apply truthy_nonempty, V. }
  split.
  - unfold eval. rewrite getConversations_eq. unfold conversations_of. simpl.
    apply (Permutation_in _ (Permutation_sym (conversation_ids w'))).
    apply inbound_ids_In. exists d. split; [exact Hd|]. split; congruence.
  - exists d. split; [|split; congruence].
    unfold eval, getMessages, messages_of, bind, Message.find_sorted. simpl.
    apply String.eqb_neq in Hne. rewrite Hne. simpl.
    apply sort_by_In, filter_In. split; [exact Hd|].
    apply in_conversation_true. left. congruence.
Qed.

Lemma ingested_inbound_message_is_listed_witness :
  In "+1111"
     (map conv_wa_id
          (conversations_of
             (eval getConversations
                   (exec (processWebhookFile
                            (Some (document scenario_with_receipt)))
                         (world [to_bob] None)))))
  /\ exists d,
      In d (messages_of
              (eval (getMessages (Some "+1111"))
                    (exec (processWebhookFile
                             (Some (document scenario_with_receipt)))
                          (world [to_bob] None))))
      /\ msg_id m1 = Some (messageId d)
      /\ text d = "hi".
Proof.
  exact (ingested_inbound_message_is_listed
           (world [to_bob] None) (document scenario_with_receipt)
           (mkInfo scenario_with_receipt (Some "+9999") (Some [m1])
                   (Some [read_receipt]))
           [] m1 []
           (mkData (Some "m1") (Some "+1111") "hi" "text" (Some "+1111")
                   (Some "+9999") "Alice" (Js.Num 1000000) false "received")
           "+1111" eq_refl eq_refl (fun x (H : In x []) => match H with end)
           eq_refl eq_refl eq_refl eq_refl eq_refl).
Defined.
